(** * The dice game: fair random generation and non-transitive dice odds

    A shallow embedding of [game.js], of its earlier draft [t.js] and of the
    third, unnamed copy of the script, with the properties of the
    commit-reveal generator, of the fair throw and of the probability table
    stated and proved over it.

    Numbers.  Every JavaScript number is an IEEE-754 binary64 value.  Two
    views of them are used, each exact on the values it carries:
    - the integer-valued ones (random values, [parseInt] results, sums and
      remainders of those) are carried by their integer, in [JsNum], with the
      rounding of a sum or of a long digit string written out
      ([round_to_double]);
    - the fractional ones ([count / 36] and what [toFixed] and [Number] make
      of it) are carried by Rocq's primitive binary64 floats, whose
      operations are the IEEE ones.
    Negative zero is identified with zero: the script only prints numbers,
    uses them as array indices and compares them, and none of these tells
    the two zeros apart.  Strings are sequences of ASCII characters. *)

From Stdlib Require Import ZArith List String Ascii Bool Lia.
From Stdlib Require Import DecimalString DecimalPos DecimalN DecimalZ.
From Stdlib Require Import Floats Uint63 Permutation.
Import ListNotations.

Local Open Scope string_scope.
Local Open Scope Z_scope.

(** ** The JavaScript runtime the script relies on *)

Module Js.

(** What a call that does not return normally raised. [ERR_OUT_OF_RANGE]
    (a [RangeError]) and [ERR_INVALID_ARG_TYPE] (a [TypeError]) are the two
    errors of Node's [crypto.randomInt]; [TypeError] is the engine's own
    (reading a property of [undefined]); [Error msg] is [new Error(msg)]. *)
Inductive Exception : Type :=
| ERR_OUT_OF_RANGE
| ERR_INVALID_ARG_TYPE
| TypeError
| Error (msg : string).

Inductive Outcome (A : Type) : Type :=
| Returned (a : A)
| Threw (e : Exception).
Arguments Returned {A} a.
Arguments Threw {A} e.

Definition bind {A B} (m : Outcome A) (k : A -> Outcome B) : Outcome B :=
  match m with
  | Returned a => k a
  | Threw e => Threw e
  end.

(** Integer-valued numbers, the infinities and NaN. *)
Inductive JsNum : Type :=
| JInt (z : Z)
| JInf (negative : bool)
| JNaN.

Definition MAX_SAFE_INTEGER : Z := 2 ^ 53 - 1.

(** The binary64 value nearest to the integer [z], ties to the even
    significand, overflowing to an infinity: what an addition of two
    integer-valued doubles, or the reading of a digit string, returns. *)
Definition round_to_double (z : Z) : JsNum :=
  let a := Z.abs z in
  if a <? 2 ^ 53 then JInt z
  else
    let e := Z.log2 a - 52 in
    let q := a / 2 ^ e in
    let r := a mod 2 ^ e in
    let q' := if (2 ^ e <? 2 * r) || ((2 * r =? 2 ^ e) && Z.odd q)
              then q + 1 else q in
    let m := q' * 2 ^ e in
    if 2 ^ 1024 <=? m then JInf (z <? 0) else JInt (Z.sgn z * m).

(** [x + y]. *)
Definition add (x y : JsNum) : JsNum :=
  match x, y with
  | JNaN, _ | _, JNaN => JNaN
  | JInt a, JInt b => round_to_double (a + b)
  | JInf s, JInt _ | JInt _, JInf s => JInf s
  | JInf s, JInf s' => if Bool.eqb s s' then JInf s else JNaN
  end.

(** [x % y]: the remainder has the sign of the dividend and is exact. *)
Definition rem (x y : JsNum) : JsNum :=
  match x, y with
  | JNaN, _ | _, JNaN => JNaN
  | JInf _, _ => JNaN
  | JInt a, JInf _ => JInt a
  | JInt a, JInt b => if b =? 0 then JNaN else JInt (Z.rem a b)
  end.

(** The decimal digits of an integer, with its sign. *)
Definition integer_digits (z : Z) : string :=
  NilZero.string_of_int (Z.to_int z).

(** The digits of [c] denote the double [a]: it is the double nearest to
    [c]. *)
Definition reads_as (a c : Z) : bool :=
  match round_to_double c with
  | JInt m => m =? a
  | _ => false
  end.

(** The integer with the fewest significant digits that reads as the
    double [a], which has [n] digits, on trying [k] significant digits and
    then more: of the two multiples of [10^(n-k)] around [a] the nearer
    one is tried first, and of two as near the one whose [k] digits make
    an even number. *)
Fixpoint shortest (fuel : nat) (k n a : Z) : Z :=
  match fuel with
  | O => a
  | S fuel' =>
      let p := 10 ^ (n - k) in
      let s := a / p in
      let low := s * p in
      let high := low + p in
      let low_first :=
        (a - low <? high - a) || ((a - low =? high - a) && Z.even s) in
      let '(c1, c2) := if low_first then (low, high) else (high, low) in
      if reads_as a c1 then c1
      else if reads_as a c2 then c2
      else shortest fuel' (k + 1) n a
  end.

(** [s] without the zeros at its end. *)
Fixpoint drop_zeros (s : string) : string :=
  match s with
  | EmptyString => EmptyString
  | String c rest =>
      match drop_zeros rest with
      | EmptyString => if Ascii.eqb c "0" then EmptyString else String c ""
      | kept => String c kept
      end
  end.

(** The text of a double [a] that is at least 2^53: the digits that read
    as [a] and are the fewest, followed by zeros up to 21 digits in all,
    and beyond that with one digit before the point and the exponent. *)
Definition large_digits (a : Z) : string :=
  let n := Z.of_nat (String.length (integer_digits a)) in
  let c := shortest (Z.to_nat n) 1 n a in
  let digits := integer_digits c in
  let n' := Z.of_nat (String.length digits) in
  if n' <=? 21 then digits
  else
    match digits with
    | String d rest =>
        String d
          (match drop_zeros rest with
           | EmptyString => EmptyString
           | fraction => "." ++ fraction
           end)
        ++ "e+" ++ integer_digits (n' - 1)
    | EmptyString => digits
    end.

(** [Number.prototype.toString()] (radix 10) of an integer-valued number.
    A safe integer is the only integer that reads as it, and its digits
    are printed.  From 2^53 on the engine prints the fewest digits that
    read back as the same double (2^56 prints as [72057594037927940]), and
    from 10^21 on it writes them with an exponent ([1e+21]).  Every number
    the game itself prints or feeds to the MAC is below 2^49; the faces of
    a die can be any integer-valued double. *)
Definition toString (x : JsNum) : string :=
  match x with
  | JNaN => "NaN"
  | JInf false => "Infinity"
  | JInf true => "-Infinity"
  | JInt z =>
      if Z.abs z <=? MAX_SAFE_INTEGER then integer_digits z
      else (if z <? 0 then "-" else "") ++ large_digits (Z.abs z)
  end.

Definition is_white_space (c : ascii) : bool :=
  let n := Z.of_N (N_of_ascii c) in
  ((9 <=? n) && (n <=? 13)) || (n =? 32).

Definition digit_of_ascii (c : ascii) : option Z :=
  let n := Z.of_N (N_of_ascii c) in
  if (48 <=? n) && (n <=? 57) then Some (n - 48) else None.

Fixpoint skip_white_space (s : string) : string :=
  match s with
  | String c rest => if is_white_space c then skip_white_space rest else s
  | EmptyString => s
  end.

(** The longest prefix of decimal digits of [s], read as a number on top of
    [acc]; [None] as long as no digit was seen. *)
Fixpoint scan_digits (s : string) (acc : option Z) : option Z :=
  match s with
  | String c rest =>
      match digit_of_ascii c with
      | Some d =>
          scan_digits rest
            (Some (10 * match acc with Some a => a | None => 0 end + d))
      | None => acc
      end
  | EmptyString => acc
  end.

(** [parseInt(s, 10)]: leading white space is skipped, one sign is read,
    then the longest run of digits; whatever follows is ignored; no digit
    at all gives NaN. *)
Definition parseInt (s : string) : JsNum :=
  let t := skip_white_space s in
  let '(negative, body) :=
    match t with
    | String "-" rest => (true, rest)
    | String "+" rest => (false, rest)
    | _ => (false, t)
    end in
  match scan_digits body None with
  | Some n => round_to_double (if negative then - n else n)
  | None => JNaN
  end.

(** *** Fractional numbers: binary64 floats *)

(** The float of a natural number below 2^63 (exact below 2^53). *)
Definition float_of_Z (z : Z) : float := PrimFloat.of_uint63 (Uint63.of_Z z).

(** [n] printed with at least [width] digits, zeros in front. *)
Fixpoint pad_digits (width : nat) (n : Z) (acc : string) : string :=
  match width with
  | O => if n =? 0 then acc
         else NilZero.string_of_uint (N.to_uint (Z.to_N n)) ++ acc
  | S w =>
      pad_digits w (n / 10)
        (String (ascii_of_N (Z.to_N (48 + n mod 10))) acc)
  end.

(** The integer [n] for which [n / 10^4 - m * 2^e] is as close to zero as
    possible, the larger one when there are two. *)
Definition nearest_ten_thousandth (m : positive) (e : Z) : Z :=
  if 0 <=? e then Z.pos m * 2 ^ e * 10000
  else (2 * (Z.pos m * 10000) + 2 ^ (- e)) / (2 * 2 ^ (- e)).

(** [x.toFixed(4)]: the sign, then the digits of the nearest number of
    ten-thousandths with a point before the last four.  (From 10^21 on the
    engine prints an exponent instead; the script only has values between
    0 and 1 here.) *)
Definition toFixed4 (x : float) : string :=
  match Prim2SF x with
  | S754_nan => "NaN"
  | S754_infinity false => "Infinity"
  | S754_infinity true => "-Infinity"
  | S754_zero _ => "0.0000"
  | S754_finite s m e =>
      let n := nearest_ten_thousandth m e in
      (if s then "-" else "") ++ pad_digits 1 (n / 10000) ""
        ++ "." ++ pad_digits 4 (n mod 10000) ""
  end.

(** The digits of [s] from its start, as a number and how many they are,
    with the rest of [s]. *)
Fixpoint read_digits (s : string) (acc : Z) (len : nat) : Z * nat * string :=
  match s with
  | String c rest =>
      match digit_of_ascii c with
      | Some d => read_digits rest (10 * acc + d) (S len)
      | None => (acc, len, s)
      end
  | EmptyString => (acc, len, s)
  end.

(** [Number(s)] on plain decimal literals: an optional sign, digits, and
    optionally a point and more digits, as [toFixed] prints them; the empty
    string is 0.  (The full grammar also has exponents, other radices,
    [Infinity] and surrounding white space; on those this function answers
    NaN, and the script never applies it to one.)  The literal denotes
    [n / 10^k]; with [n < 2^53] and [k <= 22] both are doubles and their IEEE
    quotient is the double nearest to the literal, which [Number] returns. *)
Definition Number_of_string (s : string) : float :=
  let '(negative, body) :=
    match s with
    | String "-" rest => (true, rest)
    | String "+" rest => (false, rest)
    | _ => (false, s)
    end in
  let '(whole, wlen, rest) := read_digits body 0 O in
  let result (n : Z) (k : nat) : float :=
    let q := (float_of_Z n / float_of_Z (10 ^ Z.of_nat k))%float in
    if negative then (- q)%float else q in
  match s, rest with
  | EmptyString, _ => zero
  | _, EmptyString => match wlen with O => nan | S _ => result whole O end
  | _, String "." frac =>
      match read_digits frac whole O with
      | (n, k, EmptyString) =>
          match (wlen + k)%nat with O => nan | S _ => result n k end
      | _ => nan
      end
  | _, _ => nan
  end.

(** [Math.random()]: the engine's own generator, a stream of doubles in
    [0, 1) of which each call takes the next. *)
Record MathRandom : Type := mkMathRandom
  { samples : nat -> float; taken : nat }.

Definition Math_random (r : MathRandom) : float * MathRandom :=
  (samples r (taken r), mkMathRandom (samples r) (S (taken r))).

(** *** The terminal *)

(** An argument of [console.log]: a string, or an array of numbers. *)
Inductive LogItem : Type :=
| LStr (s : string)
| LNums (l : list Z).

(** What the script writes, in order: [console.log(args)] and the query of
    [readline]'s [question]. *)
Inductive Event : Type :=
| ConsoleLog (args : list LogItem)
| Question (query : string).

(** [array[i] = v]: replaces the element at [i], or extends the array up to
    [i] (with [hole] in the places it skips) and puts [v] there. *)
Definition array_set {A : Type} (hole : A) (i : nat) (v : A) (l : list A)
  : list A :=
  if (i <? List.length l)%nat then (firstn i l ++ v :: skipn (S i) l)%list
  else (l ++ repeat hole (i - List.length l) ++ [v])%list.

(** [array.join(sep)] on strings. *)
Fixpoint join (sep : string) (l : list string) : string :=
  match l with
  | [] => ""
  | [x] => x
  | x :: rest => x ++ sep ++ join sep rest
  end.

End Js.

(** ** Node's [crypto] module

    Not part of the script. [randomBytes] and [randomInt] are modelled from
    Node's documentation: they read the system's entropy, here a tape of
    arbitrary numbers read left to right, and [randomInt(min, max)] wants
    safe integers with [min < max] and [max - min <= RAND_MAX = 2^48 - 1],
    and returns a number in [min, max). The MAC itself
    ([createHmac("sha3-256", key).update(msg).digest("hex")]) is a
    parameter of the development: a function of the key and the message. *)

Module Crypto.
Import Js.

(** The system's randomness: a tape of arbitrary integers, read one cell
    per draw.  A byte of [randomBytes] is one draw, and so is the integer
    of [randomInt]; how many bytes of the system's entropy Node spends on
    a draw is not modelled. *)
Record Entropy : Type := mkEntropy { tape : nat -> Z; cursor : nat }.

Definition next (g : Entropy) : Z * Entropy :=
  (tape g (cursor g), mkEntropy (tape g) (S (cursor g))).

(** [crypto.randomBytes(n)], each byte a number in [0, 256). *)
Fixpoint randomBytes (n : nat) (g : Entropy) : list Z * Entropy :=
  match n with
  | O => ([], g)
  | S n' =>
      let '(b, g1) := next g in
      let '(bs, g2) := randomBytes n' g1 in
      (b mod 256 :: bs, g2)
  end.

Definition hex_digit (n : Z) : ascii :=
  ascii_of_N (Z.to_N (if n <? 10 then 48 + n else 87 + n)).

(** [buffer.toString("hex")]: two lowercase digits per byte. *)
Fixpoint hex (bytes : list Z) : string :=
  match bytes with
  | [] => ""
  | b :: rest =>
      String (hex_digit (b / 16)) (String (hex_digit (b mod 16)) (hex rest))
  end.

Definition RAND_MAX : Z := 281474976710655.

Definition isSafeInteger (z : Z) : bool := Z.abs z <=? MAX_SAFE_INTEGER.

(** [crypto.randomInt(min, max)] on integers.  The tape holds arbitrary
    numbers, so every value of [[min, max)] is a possible result. *)
Definition randomInt (min max : Z) (g : Entropy) : Outcome (Z * Entropy) :=
  if negb (isSafeInteger min) then Threw ERR_INVALID_ARG_TYPE
  else if negb (isSafeInteger max) then Threw ERR_INVALID_ARG_TYPE
  else if max <=? min then Threw ERR_OUT_OF_RANGE
  else
    let range := max - min in
    if negb (range <=? RAND_MAX) then Threw ERR_OUT_OF_RANGE
    else
      let '(x, g') := next g in
      Returned (x mod range + min, g').

End Crypto.

(** ** [class FairRandomGenerator] (the same in the three copies) *)

Module FairRandomGenerator.
Import Js Crypto.

(** The object [{ randomValue, hmac, key }]. *)
Record Commitment : Type := mkCommitment
  { randomValue : Z; hmac : string; key : string }.

Section WithMac.

(** [createHmac("sha3-256", key).update(msg).digest("hex")]. *)
Variable createHmac_sha3_256 : string -> string -> string.

Definition generateRandom (range : Z) (g : Entropy)
  : Outcome (Commitment * Entropy) :=
  let '(bytes, g1) := randomBytes 32 g in
  let key := hex bytes in
  bind (randomInt 0 range g1) (fun '(randomValue, g2) =>
  let hmac := createHmac_sha3_256 key (toString (JInt randomValue)) in
  Returned (mkCommitment randomValue hmac key, g2)).

Definition verifyHMAC (value : Z) (key hmac : string) : Outcome bool :=
  let calculatedHMAC := createHmac_sha3_256 key (toString (JInt value)) in
  Returned (String.eqb hmac calculatedHMAC).

End WithMac.

End FairRandomGenerator.

(** ** [class Dice] *)

Module Dice.
Import Js.

(** A die holds its faces; [Number.isInteger] has held of each of them, so
    they are integers. *)
Record Dice : Type := mkDice { faces : list Z }.

(** [new Dice(faces)] on an array of integers. *)
Definition new (faces : list Z) : Outcome Dice :=
  if negb (List.length faces =? 6)%nat
  then Threw (Error "Each dice must have exactly 6 integers.")
  else Returned (mkDice faces).

(** [roll(index)] is [this.faces[index]]: [None] is [undefined], which is
    what an index that is no position of the array gives. *)
Definition roll (d : Dice) (index : JsNum) : option Z :=
  match index with
  | JInt z => if z <? 0 then None else nth_error (faces d) (Z.to_nat z)
  | _ => None
  end.

Definition toString (d : Dice) : string :=
  "[" ++ join "," (map (fun f => Js.toString (JInt f)) (faces d)) ++ "]".

(** The invariant the constructor establishes. *)
Definition six_faces (d : Dice) : Prop := List.length (faces d) = 6%nat.

End Dice.

(** ** [class ProbabilityCalculator] of [game.js] *)

(** An entry of the table: a string or a number. *)
Inductive Cell : Type :=
| CStr (s : string)
| CNum (x : float)
| CUndefined.

Module ProbabilityCalculator.
Import Js Dice.

(** The two nested loops of [calculateProbability]: [count] after them. *)
Definition count_wins (diceA diceB : list Z) : Z :=
  fold_left
    (fun count a =>
       fold_left (fun count b => if b <? a then count + 1 else count)
         diceB count)
    diceA 0.

Definition calculateProbability (diceA diceB : list Z) : float :=
  let count := count_wins diceA diceB in
  let totalOutcomes := 36 in
  let probability := (float_of_Z count / float_of_Z totalOutcomes)%float in
  Number_of_string (toFixed4 probability).

(** [diceSet[i].faces] for an index within the set. *)
Definition faces_at (diceSet : list Dice) (i : nat) : list Z :=
  faces (nth i diceSet (mkDice [])).

Definition self_label : string := "- (0.3333)".

(** The entry the inner loop stores at [probabilities[i][j]]. *)
Definition entry (diceSet : list Dice) (i j : nat) : Cell :=
  if (i =? j)%nat then CStr self_label
  else CNum (calculateProbability (faces_at diceSet i) (faces_at diceSet j)).

(** [calculate]: for each [i] a fresh row is stored at [probabilities[i]] and
    filled through [probabilities[i][j] = ...] for each [j]; nothing else
    refers to the row meanwhile, so it is built first and stored then. *)
Definition calculate (diceSet : list Dice) : list (list Cell) :=
  let n := List.length diceSet in
  fold_left
    (fun probabilities i =>
       let row :=
         fold_left (fun row j => array_set CUndefined j (entry diceSet i j) row)
           (seq 0 n) [] in
       array_set [] i row probabilities)
    (seq 0 n) [].

(** [matrix[i][j]]. *)
Definition cell (matrix : list (list Cell)) (i j : nat) : option Cell :=
  match nth_error matrix i with
  | Some row => nth_error row j
  | None => None
  end.

End ProbabilityCalculator.

(** ** [class ProbabilityCalculator] of the draft [t.js] *)

Module Draft.
Import Js Dice.

(** The entry stored at [probabilities[i][j]]: off the diagonal it is
    [Math.random().toFixed(4)], a string (the line is marked
    [// Placeholder] in the source). *)
Definition entry (i j : nat) (r : MathRandom) : Cell * MathRandom :=
  if (i =? j)%nat then (CStr ProbabilityCalculator.self_label, r)
  else
    let '(x, r') := Math_random r in
    (CStr (toFixed4 x), r').

Definition calculate (diceSet : list Dice) (r : MathRandom)
  : list (list Cell) * MathRandom :=
  let n := List.length diceSet in
  fold_left
    (fun '(probabilities, r) i =>
       let '(row, r') :=
         fold_left
           (fun '(row, r) j =>
              let '(c, r') := entry i j r in
              (array_set CUndefined j c row, r'))
           (seq 0 n) ([], r) in
       (array_set [] i row probabilities, r'))
    (seq 0 n) ([], r).

End Draft.

(** ** [class ProbabilityCalculator] of the third copy *)

Module Copy.
Import Js Dice.

(** [calculate] first logs [diceSet[0].faces] and the string ["diceSet"];
    reading [.faces] of the [undefined] that [diceSet[0]] is in an empty
    set throws before anything is written.  Its loops are those of
    [game.js], character for character. *)
Definition calculate (diceSet : list Dice)
  : list Event * Outcome (list (list Cell)) :=
  match diceSet with
  | [] => ([], Threw TypeError)
  | first :: _ =>
      ([ConsoleLog [LNums (faces first); LStr "diceSet"]],
       Returned (ProbabilityCalculator.calculate diceSet))
  end.

End Copy.

(** ** [class Game] of [game.js]

    The third copy's [fairThrow] is the same but for the word [HMAC]
    where this one prints [KEY]; the draft's has neither the exit nor the
    help command. *)

Module Game.
Import Js Crypto Dice FairRandomGenerator.

(** How an [async] method ends: it returns, it rejects with an exception,
    the process exits ([process.exit(code)]), or it waits for ever for an
    answer that the input does not hold. *)
Inductive Ending (A : Type) : Type :=
| Returns (a : A)
| Throws (e : Exception)
| Exits (code : Z)
| Awaits.
Arguments Returns {A} a.
Arguments Throws {A} e.
Arguments Exits {A} code.
Arguments Awaits {A}.

Definition nl : string := String (ascii_of_N 10) "".

Section WithEnvironment.

(** [createHmac("sha3-256", key).update(msg).digest("hex")]. *)
Variable createHmac_sha3_256 : string -> string -> string.

(** [cli-table3]: the text of a table, from its head and its rows. *)
Variable Table_toString : list string -> list (list string) -> string.

(** The dice [InputParser.parseDiceConfigs] reads from [process.argv]; the
    script has parsed them once, successfully, before any game starts. *)
Variable argvDice : list Dice.

(** [typeof p === "string" ? p : p.toFixed(4)]. *)
Definition show_cell (p : Cell) : Outcome string :=
  match p with
  | CStr s => Returned s
  | CNum x => Returned (toFixed4 x)
  | CUndefined => Threw TypeError
  end.

Fixpoint show_cells (row : list Cell) : Outcome (list string) :=
  match row with
  | [] => Returned []
  | p :: rest =>
      bind (show_cell p) (fun s =>
      bind (show_cells rest) (fun ss => Returned (s :: ss)))
  end.

(** The rows [display] pushes, [i] being the index of the first. *)
Fixpoint table_rows (probabilities : list (list Cell))
    (diceConfigs : list Dice) (i : nat) : Outcome (list (list string)) :=
  match probabilities with
  | [] => Returned []
  | row :: rest =>
      match nth_error diceConfigs i with
      | None => Threw TypeError
      | Some dice =>
          bind (show_cells row) (fun cells =>
          bind (table_rows rest diceConfigs (S i)) (fun rows =>
          Returned ((Dice.toString dice :: cells) :: rows)))
      end
  end.

Definition display (probabilities : list (list Cell))
    (diceConfigs : list Dice) : list Event * Outcome unit :=
  let title :=
    ConsoleLog [LStr (nl ++ "Probability of the win for the user:")] in
  let head := "User dice v" :: map Dice.toString diceConfigs in
  match table_rows probabilities diceConfigs 0 with
  | Threw e => ([title], Threw e)
  | Returned rows =>
      ([title; ConsoleLog [LStr (Table_toString head rows)]], Returned tt)
  end.

Definition showResults : list Event * Outcome unit :=
  let diceSet := argvDice in
  let probabilities := ProbabilityCalculator.calculate diceSet in
  display probabilities diceSet.

Definition selection_menu : string :=
  nl ++ "Your selection: " ++ nl ++ "0 - 0" ++ nl ++ "1 - 1" ++ nl
     ++ "2 - 2" ++ nl ++ "3 - 3" ++ nl ++ "4 - 4" ++ nl ++ "5 - 5" ++ nl
     ++ "X - exit" ++ nl ++ "? - help" ++ nl.

(** [(randomValue + parseInt(userNumber, 10)) % range]. *)
Definition combine (randomValue : Z) (userNumber : string) (range : Z)
  : JsNum :=
  rem (add (JInt randomValue) (parseInt userNumber)) (JInt range).

(** [fairThrow(range, player)]. [stdin] holds the lines the user will type;
    the method returns its result with the entropy and the lines left. *)
Fixpoint fairThrow (stdin : list string) (range : Z) (player : string)
    (g : Entropy) : list Event * Ending (JsNum * Entropy * list string) :=
  match generateRandom createHmac_sha3_256 range g with
  | Threw e => ([], Throws e)
  | Returned (mkCommitment randomValue hmac key, g1) =>
      let announce :=
        ConsoleLog
          [LStr ("I selected a random value in the range 0.."
                 ++ Js.toString (JInt (range - 1)) ++ " (KEY=" ++ hmac ++ "). "
                 ++ selection_menu)] in
      let ask :=
        Question ("Add your number modulo " ++ Js.toString (JInt range) ++ ": ") in
      match stdin with
      | [] => ([announce; ask], Awaits)
      | userNumber :: rest =>
          if (userNumber =? "x")%string || (userNumber =? "X")%string
          then ([announce; ask], Exits 1)
          else if (userNumber =? "?")%string then
            match showResults with
            | (shown, Threw e) => (announce :: ask :: shown, Throws e)
            | (shown, Returned _) =>
                let '(later, ending) := fairThrow rest range player g1 in
                ((announce :: ask :: shown) ++ later, ending)%list
            end
          else
            let result := combine randomValue userNumber range in
            ([announce; ask;
              ConsoleLog
                [LStr ((if (player =? "user")%string then "My" else "Your")
                       ++ " number is " ++ Js.toString (JInt randomValue)
                       ++ " (KEY=" ++ key ++ ").")];
              ConsoleLog
                [LStr ("The result is "
                       ++ Js.toString (combine randomValue userNumber range)
                       ++ ".")]],
             Returns (result, g1, rest))
      end
  end.

(** [`${dice.roll(index)}`]. *)
Definition show_face (face : option Z) : string :=
  match face with
  | Some f => Js.toString (JInt f)
  | None => "undefined"
  end.

(** [x > y] on faces: a comparison with [undefined] is false. *)
Definition face_gt (x y : option Z) : bool :=
  match x, y with
  | Some a, Some b => b <? a
  | _, _ => false
  end.

Definition performThrow (stdin : list string) (userDice computerDice : Dice)
    (g : Entropy) : list Event * Ending (unit * Entropy * list string) :=
  let start := ConsoleLog [LStr (nl ++ "It's time for the throws!")] in
  match fairThrow stdin 6 "computer" g with
  | (out1, Returns (computerRoll, g1, stdin1)) =>
      match fairThrow stdin1 6 "user" g1 with
      | (out2, Returns (userRoll, g2, stdin2)) =>
          let mine := roll computerDice computerRoll in
          let yours := roll userDice userRoll in
          let verdict :=
            if face_gt mine yours then "I win!"
            else if face_gt yours mine then "You win!"
            else "It's a draw!" in
          ((start :: out1) ++ out2
             ++ [ConsoleLog [LStr (nl ++ "My throw is " ++ show_face mine ++ ".")];
                 ConsoleLog [LStr ("Your throw is " ++ show_face yours ++ ".")];
                 ConsoleLog [LStr verdict]],
           Returns (tt, g2, stdin2))%list
      | (out2, Throws e) => ((start :: out1) ++ out2, Throws e)%list
      | (out2, Exits c) => ((start :: out1) ++ out2, Exits c)%list
      | (out2, Awaits) => ((start :: out1) ++ out2, Awaits)%list
      end
  | (out1, Throws e) => (start :: out1, Throws e)
  | (out1, Exits c) => (start :: out1, Exits c)
  | (out1, Awaits) => (start :: out1, Awaits)
  end.

End WithEnvironment.

End Game.

(** ** Reference notions the properties are stated with *)

Module Reference.
Import Js Crypto Dice.

(** *** Counting face pairs *)

Fixpoint sumZ (f : Z -> Z) (l : list Z) : Z :=
  match l with
  | [] => 0
  | x :: rest => f x + sumZ f rest
  end.

Definition ind (b : bool) : Z := if b then 1 else 0.

(** The ordered face pairs [(x, y)], [x] on the first die and [y] on the
    second, with [x] strictly greater than [y]: direct enumeration. *)
Definition strictly_greater_pairs (a b : list Z) : list (Z * Z) :=
  filter (fun '(x, y) => y <? x) (list_prod a b).

(** The number of ordered pairs of equal faces. *)
Definition ties (a b : list Z) : Z :=
  sumZ (fun x => sumZ (fun y => ind (x =? y)) b) a.

(** *** Probabilities as decimals *)

(** What [calculateProbability] makes of the count its loops leave. *)
Definition probability_of_count (count : Z) : float :=
  Number_of_string (toFixed4 (float_of_Z count / float_of_Z 36)%float).

(** The double nearest to [n / 10000], the number written [0.dddd]. *)
Definition decimal4 (n : Z) : float :=
  (float_of_Z n / float_of_Z 10000)%float.

(** [count / 36] in ten-thousandths, rounded to the nearest (halves up). *)
Definition rounded_ten_thousandths (count : Z) : Z :=
  (2 * (count * 10000) + 36) / 72.

(** The counts two six-faced dice can reach. *)
Definition counts : list Z := map Z.of_nat (seq 0 37).

(** For two counts: the sum of the two probabilities is 1 exactly when the
    counts add up to 36, and is below 1 when they add up to less. *)
Definition sum_check (c1 c2 : Z) : bool :=
  let s := (probability_of_count c1 + probability_of_count c2)%float in
  Bool.eqb (s =? 1)%float (c1 + c2 =? 36)
  && (if c1 + c2 <? 36 then (s <? 1)%float else true).

(** A probability lies between 0 and 1. *)
Definition in_unit_interval (p : float) : bool :=
  ((0 <=? p) && (p <=? 1))%float.

(** What [display] prints for an entry that is a string or a number. *)
Definition show (c : Cell) : string :=
  match c with
  | CStr s => s
  | CNum x => toFixed4 x
  | CUndefined => ""
  end.

(** *** Decimal digit strings *)

(** The number a string of digits denotes on top of [acc]. *)
Fixpoint uint_val (d : Decimal.uint) (acc : Z) : Z :=
  match d with
  | Decimal.Nil => acc
  | Decimal.D0 l => uint_val l (10 * acc + 0)
  | Decimal.D1 l => uint_val l (10 * acc + 1)
  | Decimal.D2 l => uint_val l (10 * acc + 2)
  | Decimal.D3 l => uint_val l (10 * acc + 3)
  | Decimal.D4 l => uint_val l (10 * acc + 4)
  | Decimal.D5 l => uint_val l (10 * acc + 5)
  | Decimal.D6 l => uint_val l (10 * acc + 6)
  | Decimal.D7 l => uint_val l (10 * acc + 7)
  | Decimal.D8 l => uint_val l (10 * acc + 8)
  | Decimal.D9 l => uint_val l (10 * acc + 9)
  end.

(** [s] does not go on with a digit. *)
Definition no_digit_ahead (s : string) : Prop :=
  match s with
  | String c _ => digit_of_ascii c = None
  | EmptyString => True
  end.

(** *** Well-formed keys and digests *)

Definition is_lower_hex (c : ascii) : bool :=
  let n := Z.of_N (N_of_ascii c) in
  ((48 <=? n) && (n <=? 57)) || ((97 <=? n) && (n <=? 102)).

(** 32 bytes in lowercase hexadecimal: the shape of the key
    [generateRandom] draws and of a SHA3-256 digest. *)
Definition well_formed (s : string) : bool :=
  (String.length s =? 64)%nat && forallb is_lower_hex (list_ascii_of_string s).

(** *** Rounds of the fair throw *)

(** What one round of [fairThrow] writes when it is answered with a
    number: the digest, then the question, then the value with the key,
    then the result. *)
Definition transcript (range : Z) (c : FairRandomGenerator.Commitment)
    (player : string) (result : JsNum) : list Event :=
  [ConsoleLog
     [LStr ("I selected a random value in the range 0.."
            ++ Js.toString (JInt (range - 1)) ++ " (KEY="
            ++ FairRandomGenerator.hmac c ++ "). " ++ Game.selection_menu)];
   Question ("Add your number modulo " ++ Js.toString (JInt range) ++ ": ");
   ConsoleLog
     [LStr ((if (player =? "user")%string then "My" else "Your")
            ++ " number is "
            ++ Js.toString (JInt (FairRandomGenerator.randomValue c))
            ++ " (KEY=" ++ FairRandomGenerator.key c ++ ").")];
   ConsoleLog [LStr ("The result is " ++ Js.toString result ++ ".")]].

(** [s] starts with nothing [parseInt] could read: it is empty, or its
    first character is no white space, no sign and no digit. *)
Definition no_number_ahead (s : string) : Prop :=
  match s with
  | EmptyString => True
  | String c _ =>
      is_white_space c = false /\ c <> "-"%char /\ c <> "+"%char
      /\ digit_of_ascii c = None
  end.

(** *** Entropy *)

(** The [n] bytes that [randomBytes n] reads from the tape at the cursor. *)
Definition read_bytes (g : Entropy) (n : nat) : list Z :=
  map (fun i => tape g (cursor g + i)%nat mod 256) (seq 0 n).

(** *** Sample inputs *)

Definition dieA : Dice := mkDice [2; 2; 4; 4; 9; 9].
Definition dieB : Dice := mkDice [6; 8; 1; 1; 8; 6].
Definition dieC : Dice := mkDice [7; 5; 3; 7; 5; 3].
Definition sample_dice : list Dice := [dieA; dieB; dieC].

(** Two dice with a face in common. *)
Definition dieD : Dice := mkDice [1; 2; 3; 4; 5; 6].
Definition dieE : Dice := mkDice [6; 7; 8; 9; 10; 11].

Definition sample_entropy : Entropy :=
  mkEntropy (fun n => Z.of_nat n * 37 + 5) 0.

(** The key and the commitment [generateRandom(6)] draws from
    [sample_entropy] under [sample_mac] below, the entropy it leaves, and
    the commitment the next call draws. *)
Definition sample_key : string :=
  "052a4f7499bee3082d52779cc1e60b30557a9fc4e90e33587da2c7ec11365b80".
Definition sample_commitment : FairRandomGenerator.Commitment :=
  FairRandomGenerator.mkCommitment 1 (sample_key ++ ":1") sample_key.
Definition sample_entropy_after : Entropy :=
  mkEntropy (tape sample_entropy) 33.
Definition second_key : string :=
  "caef14395e83a8cdf2173c6186abd0f51a3f6489aed3f81d42678cb1d6fb2045".
Definition second_commitment : FairRandomGenerator.Commitment :=
  FairRandomGenerator.mkCommitment 4 (second_key ++ ":4") second_key.

(** A stand-in for the MAC and for the table printer, to run the script's
    functions on the sample inputs. *)
Definition sample_mac (key msg : string) : string := key ++ ":" ++ msg.
Definition sample_table (head : list string) (rows : list (list string))
  : string :=
  join "|" (head ++ List.concat rows)%list.

Definition quarter : float := (float_of_Z 1 / float_of_Z 4)%float.
Definition half : float := (float_of_Z 1 / float_of_Z 2)%float.

End Reference.

(** ** Strings and numbers read from the command line and the keyboard *)

Module JsText.
Import Js.

(** [s] with the prefix [p] taken off, when it starts with it. *)
Fixpoint strip_prefix (p s : string) : option string :=
  match p, s with
  | EmptyString, _ => Some s
  | String a p', String b s' =>
      if Ascii.eqb a b then strip_prefix p' s' else None
  | String _ _, EmptyString => None
  end.

Fixpoint all_white_space (s : string) : bool :=
  match s with
  | EmptyString => true
  | String c rest => is_white_space c && all_white_space rest
  end.

(** [s] without the white space at its end. *)
Fixpoint trim_end (s : string) : string :=
  match s with
  | EmptyString => EmptyString
  | String c rest =>
      match trim_end rest with
      | EmptyString => if is_white_space c then EmptyString else String c ""
      | kept => String c kept
      end
  end.

(** [s.split(sep)] for a separator of one character: the pieces between
    the separators, the empty ones too; at least one piece. *)
Fixpoint split (sep : ascii) (s : string) : list string :=
  match s with
  | EmptyString => [EmptyString]
  | String c rest =>
      if Ascii.eqb c sep then EmptyString :: split sep rest
      else
        match split sep rest with
        | piece :: pieces => String c piece :: pieces
        | [] => [String c ""]
        end
  end.

(** [" ".repeat(n)]. *)
Fixpoint spaces (n : nat) : string :=
  match n with
  | O => ""
  | S n' => String " " (spaces n')
  end.

(** [s.padEnd(n, " ")]. *)
Definition padEnd (n : nat) (s : string) : string :=
  s ++ spaces (n - String.length s).

End JsText.

Module JsNumber.
Import Js JsText.

(** A number: an integer-valued double, an infinity or NaN as before, or
    a double that is not an integer, [m * 2^e] with its sign. *)
Inductive Num : Type :=
| Whole (x : JsNum)
| Fraction (negative : bool) (m : positive) (e : Z).

(** The double nearest to the rational [n / d] ([0 <= n], [0 < d]) with the
    sign given, ties to even.  An integer goes through [round_to_double].
    Otherwise the quotient is taken with more than a thousand binary places
    and one more bit that says whether anything was cut off, which is
    enough for the rounding to 53 bits to come out as for [n / d] itself. *)
Definition round_rational (negative : bool) (n d : Z) : Num :=
  let signed (z : Z) : Z := if negative then - z else z in
  if n mod d =? 0 then Whole (round_to_double (signed (n / d)))
  else
    let s := 1200 + Z.log2 d in
    let q := (n * 2 ^ s) / d in
    let sticky := if (n * 2 ^ s) mod d =? 0 then 0 else 1 in
    match binary_normalize 53 1024 (2 * q + sticky) (- s - 1) false with
    | S754_zero _ => Whole (JInt 0)
    | S754_infinity _ => Whole (JInf negative)
    | S754_nan => Whole JNaN
    | S754_finite _ m e =>
        if 0 <=? e then Whole (JInt (signed (Z.pos m * 2 ^ e)))
        else if Z.pos m mod 2 ^ (- e) =? 0
             then Whole (JInt (signed (Z.pos m / 2 ^ (- e))))
             else Fraction negative m e
    end.

(** The value of a digit in a radix up to 16, upper or lower case. *)
Definition radix_digit (c : ascii) : option Z :=
  let n := Z.of_N (N_of_ascii c) in
  if (48 <=? n) && (n <=? 57) then Some (n - 48)
  else if (97 <=? n) && (n <=? 102) then Some (n - 87)
  else if (65 <=? n) && (n <=? 70) then Some (n - 55)
  else None.

(** A string made of digits of the radix only, as a number; [None] when
    it is empty or has another character. *)
Fixpoint read_radix (radix : Z) (s : string) (acc : option Z) : option Z :=
  match s with
  | EmptyString => acc
  | String c rest =>
      match radix_digit c with
      | Some d =>
          if d <? radix
          then read_radix radix rest
                 (Some (radix * match acc with Some a => a | None => 0 end + d))
          else None
      | None => None
      end
  end.

(** An optional sign taken off the front of [s]. *)
Definition read_sign (s : string) : bool * string :=
  match s with
  | String "-" rest => (true, rest)
  | String "+" rest => (false, rest)
  | _ => (false, s)
  end.

(** The exponent part that ends a decimal literal: nothing, or [e] or [E],
    an optional sign and at least one digit. *)
Definition read_exponent (r : string) : option Z :=
  match r with
  | EmptyString => Some 0
  | String c digits =>
      if Ascii.eqb c "e" || Ascii.eqb c "E" then
        let '(negative, body) := read_sign digits in
        match read_digits body 0 O with
        | (v, S _, EmptyString) => Some (if negative then - v else v)
        | _ => None
        end
      else None
  end.

(** A decimal literal: sign, then [Infinity], or digits with an optional
    point, more digits and an exponent; at least one digit. *)
Definition read_decimal (t : string) : Num :=
  let '(negative, body) := read_sign t in
  if (body =? "Infinity")%string then Whole (JInf negative)
  else
    let '(whole, wlen, r1) := read_digits body 0 O in
    let '(n, flen, r2) :=
      match r1 with
      | String "." frac => read_digits frac whole O
      | _ => (whole, O, r1)
      end in
    match (wlen + flen)%nat, read_exponent r2 with
    | S _, Some ex =>
        let e10 := ex - Z.of_nat flen in
        if 0 <=? e10 then round_rational negative (n * 10 ^ e10) 1
        else round_rational negative n (10 ^ (- e10))
    | _, _ => Whole JNaN
    end.

(** A literal in radix 16, 8 or 2 after its prefix. *)
Definition read_prefixed (radix : Z) (digits : string) : Num :=
  match read_radix radix digits None with
  | Some n => Whole (round_to_double n)
  | None => Whole JNaN
  end.

(** [Number(s)], the conversion of a string to a number: white space
    around the literal is dropped, nothing is left is 0, and what is no
    literal as a whole is NaN. *)
Definition StringToNumber (s : string) : Num :=
  let t := trim_end (skip_white_space s) in
  match t with
  | EmptyString => Whole (JInt 0)
  | _ =>
      match strip_prefix "0x" t, strip_prefix "0X" t,
            strip_prefix "0o" t, strip_prefix "0O" t,
            strip_prefix "0b" t, strip_prefix "0B" t with
      | Some digits, _, _, _, _, _ | _, Some digits, _, _, _, _ =>
          read_prefixed 16 digits
      | _, _, Some digits, _, _, _ | _, _, _, Some digits, _, _ =>
          read_prefixed 8 digits
      | _, _, _, _, Some digits, _ | _, _, _, _, _, Some digits =>
          read_prefixed 2 digits
      | None, None, None, None, None, None => read_decimal t
      end
  end.

(** [Number.isInteger(x)]. *)
Definition isInteger (x : Num) : bool :=
  match x with
  | Whole (JInt _) => true
  | _ => false
  end.

(** The integer an integer-valued number is (0 for the others). *)
Definition integer_of (x : Num) : Z :=
  match x with
  | Whole (JInt z) => z
  | _ => 0
  end.

(** An integer or an infinity. *)
Inductive ExtendedInteger : Type :=
| Finite (z : Z)
| Infinite (negative : bool).

(** [ToIntegerOrInfinity(x)]: NaN is 0, a fraction is cut towards zero. *)
Definition ToIntegerOrInfinity (x : Num) : ExtendedInteger :=
  match x with
  | Whole (JInt z) => Finite z
  | Whole (JInf negative) => Infinite negative
  | Whole JNaN => Finite 0
  | Fraction negative m e =>
      let cut := Z.pos m / 2 ^ (- e) in
      Finite (if negative then - cut else cut)
  end.

End JsNumber.

(** ** [class Dice] and [class InputParser] on what the command line holds *)

Module DiceInput.
Import Js JsText JsNumber.

(** [new Dice(faces)] on an array of numbers of any kind. *)
Definition construct (faces : list Num) : Outcome Dice.Dice :=
  if negb (List.length faces =? 6)%nat || negb (forallb isInteger faces)
  then Threw (Error "Each dice must have exactly 6 integers.")
  else Returned (Dice.mkDice (map integer_of faces)).

(** [array.map(f)] for an [f] that may throw: the first exception ends it. *)
Fixpoint map_outcome {A B : Type} (f : A -> Outcome B) (l : list A)
  : Outcome (list B) :=
  match l with
  | [] => Returned []
  | a :: rest =>
      bind (f a) (fun b =>
      bind (map_outcome f rest) (fun bs => Returned (b :: bs)))
  end.

(** [new Dice(arg.split(",").map(Number))]. *)
Definition parseDice (arg : string) : Outcome Dice.Dice :=
  construct (map StringToNumber (split "," arg)).

(** [InputParser.parseDiceConfigs(args)]. *)
Definition parseDiceConfigs (args : list string) : Outcome (list Dice.Dice) :=
  if (List.length args <? 3)%nat
  then Threw (Error "You must specify at least 3 dice configurations.")
  else map_outcome parseDice args.

End DiceInput.

(** ** Laying out the table *)

Module Layout.
Import Js JsText.


Section DraftDisplay.

(** [p.toString()] for an entry that is a number (the engine's shortest
    decimal that reads back as the same double). *)
Variable Number_toString : float -> string.

(** [p.toString().padEnd(11, " ")] for an entry of the table. *)
Definition pad_cell (p : Cell) : Outcome string :=
  match p with
  | CStr s => Returned (padEnd 11 s)
  | CNum x => Returned (padEnd 11 (Number_toString x))
  | CUndefined => Threw TypeError
  end.

(** The line ["+-------------+"] followed by ["-------------+"] for each
    die. *)
Definition border (diceConfigs : list Dice.Dice) : string :=
  "+-------------+" ++ join "" (map (fun _ => "-------------+") diceConfigs).

Definition head_line (diceConfigs : list Dice.Dice) : string :=
  "| User dice v | "
  ++ join "" (map (fun dice => padEnd 11 (Dice.toString dice) ++ " |")
                diceConfigs).

(** The two lines written for each row, [i] being the index of the first
    row of [probabilities]. *)
Fixpoint row_lines (probabilities : list (list Cell))
    (diceConfigs : list Dice.Dice) (i : nat) : list Event * Outcome unit :=
  match probabilities with
  | [] => ([], Returned tt)
  | row :: rest =>
      match nth_error diceConfigs i with
      | None => ([], Threw TypeError)
      | Some dice =>
          match DiceInput.map_outcome pad_cell row with
          | Threw e => ([], Threw e)
          | Returned cells =>
              let '(later, ending) := row_lines rest diceConfigs (S i) in
              (ConsoleLog
                 [LStr ("| " ++ padEnd 11 (Dice.toString dice) ++ " | "
                        ++ join " | " cells ++ " |")]
               :: ConsoleLog [LStr (border diceConfigs)] :: later,
               ending)
          end
      end
  end.

(** [ProbabilityCalculator.display(probabilities, diceConfigs)] of the
    draft [t.js]. *)
Definition display (probabilities : list (list Cell))
    (diceConfigs : list Dice.Dice) : list Event * Outcome unit :=
  let '(rows, ending) := row_lines probabilities diceConfigs 0 in
  ([ConsoleLog [LStr (Game.nl ++ "Probability of the win for the user:")];
    ConsoleLog [LStr (border diceConfigs)];
    ConsoleLog [LStr (head_line diceConfigs)];
    ConsoleLog [LStr (border diceConfigs)]] ++ rows,
   ending)%list.

End DraftDisplay.

End Layout.

(** ** The rest of [class Game] and the script's main block ([game.js]) *)

Module Play.
Import Js Crypto FairRandomGenerator JsNumber Game.

(** [x === y] on numbers: NaN equals nothing. *)
Definition strict_equal (x y : JsNum) : bool :=
  match x, y with
  | JInt a, JInt b => a =? b
  | JInf s, JInf t => Bool.eqb s t
  | _, _ => false
  end.

(** [array.splice(start, 1)]: the elements removed and the array left.
    A negative [start] counts from the end; the position is kept within
    the array, where at its end nothing is removed. *)
Definition splice_one {A : Type} (start : ExtendedInteger) (l : list A)
  : list A * list A :=
  let len := Z.of_nat (List.length l) in
  let actualStart :=
    match start with
    | Infinite true => 0
    | Infinite false => len
    | Finite relativeStart =>
        if relativeStart <? 0 then Z.max (len + relativeStart) 0
        else Z.min relativeStart len
    end in
  let actualDeleteCount := Z.min (Z.max 1 0) (len - actualStart) in
  let k := Z.to_nat actualStart in
  let c := Z.to_nat actualDeleteCount in
  (firstn c (skipn k l), (firstn k l ++ skipn (k + c) l)%list).

(** [`${dice}`] for a die that may be [undefined]. *)
Definition show_dice (dice : option Dice.Dice) : string :=
  match dice with
  | Some d => Dice.toString d
  | None => "undefined"
  end.

(** The lines [`${index} - ${dice}`], [index] starting at [i]. *)
Fixpoint listing (diceSet : list Dice.Dice) (i : Z) : list Event :=
  match diceSet with
  | [] => []
  | dice :: rest =>
      ConsoleLog [LStr (Js.toString (JInt i) ++ " - " ++ Dice.toString dice)]
      :: listing rest (i + 1)
  end.

(** What [selectDice] returns, with the dice it leaves in [this.diceSet]. *)
Record Selection : Type := mkSelection
  { userDice : option Dice.Dice;
    computerDice : option Dice.Dice;
    remaining : list Dice.Dice }.

(** [selectDice()] on [this.diceSet]. *)
Definition selectDice (diceSet : list Dice.Dice) (stdin : list string)
  : list Event * Ending (Selection * list string) :=
  let before :=
    (ConsoleLog [LStr (nl ++ "Choose your dice:")] :: listing diceSet 0
     ++ [Question "Your selection: "])%list in
  match stdin with
  | [] => (before, Awaits)
  | userChoice :: rest =>
      let '(taken, diceSet1) :=
        splice_one (ToIntegerOrInfinity (StringToNumber userChoice)) diceSet in
      let userDice := List.hd_error taken in
      let '(taken', diceSet2) := splice_one (Finite 0) diceSet1 in
      let computerDice := List.hd_error taken' in
      ((before
        ++ [ConsoleLog
              [LStr ("I choose the " ++ show_dice computerDice ++ ".")]])%list,
       Returns (mkSelection userDice computerDice diceSet2, rest))
  end.

Section WithEnvironment.

(** [createHmac("sha3-256", key).update(msg).digest("hex")]. *)
Variable createHmac_sha3_256 : string -> string -> string.

(** [cli-table3]: the text of a table, from its head and its rows. *)
Variable Table_toString : list string -> list (list string) -> string.

(** The dice on the command line, which the help of [fairThrow] reads
    again. *)
Variable argvDice : list Dice.Dice.

(** [determineFirstMove()]: what it stores in [this.firstMove]. *)
Definition determineFirstMove (stdin : list string) (g : Entropy)
  : list Event * Ending (string * Entropy * list string) :=
  let intro :=
    ConsoleLog [LStr (nl ++ "Determining who makes the first move...")] in
  match generateRandom createHmac_sha3_256 2 g with
  | Threw e => ([intro], Throws e)
  | Returned (mkCommitment randomValue hmac key, g1) =>
      let shown :=
        ConsoleLog
          [LStr ("I selected a random value in the range 0..1 (KEY="
                 ++ hmac ++ ").")] in
      let ask := Question "Try to guess my selection (0 or 1): " in
      match stdin with
      | [] => ([intro; shown; ask], Awaits)
      | userChoice :: rest =>
          let computerChoice := randomValue in
          let reveal :=
            ConsoleLog
              [LStr ("My selection: " ++ Js.toString (JInt computerChoice)
                     ++ " (KEY=" ++ key ++ ").")] in
          if strict_equal (parseInt userChoice) (JInt computerChoice)
          then ([intro; shown; ask; reveal;
                 ConsoleLog
                   [LStr "You guessed it! You make the first move."]],
                Returns ("user", g1, rest))
          else ([intro; shown; ask; reveal;
                 ConsoleLog [LStr "I make the first move."]],
                Returns ("computer", g1, rest))
      end
  end.

(** [performThrow(userDice, computerDice)] for dice that may be
    [undefined]: calling [roll] on [undefined] throws. *)
Definition performThrow (stdin : list string)
    (userDice computerDice : option Dice.Dice) (g : Entropy)
  : list Event * Ending (unit * Entropy * list string) :=
  let start := ConsoleLog [LStr (nl ++ "It's time for the throws!")] in
  match fairThrow createHmac_sha3_256 Table_toString argvDice stdin 6
          "computer" g with
  | (out1, Returns (computerRoll, g1, stdin1)) =>
      match fairThrow createHmac_sha3_256 Table_toString argvDice stdin1 6
              "user" g1 with
      | (out2, Returns (userRoll, g2, stdin2)) =>
          match computerDice with
          | None => ((start :: out1) ++ out2, Throws TypeError)%list
          | Some computer =>
              let mine := Dice.roll computer computerRoll in
              let first :=
                ConsoleLog
                  [LStr (nl ++ "My throw is " ++ show_face mine ++ ".")] in
              match userDice with
              | None =>
                  ((start :: out1) ++ out2 ++ [first], Throws TypeError)%list
              | Some user =>
                  let yours := Dice.roll user userRoll in
                  let verdict :=
                    if face_gt mine yours then "I win!"
                    else if face_gt yours mine then "You win!"
                    else "It's a draw!" in
                  ((start :: out1) ++ out2
                     ++ [first;
                         ConsoleLog
                           [LStr ("Your throw is " ++ show_face yours ++ ".")];
                         ConsoleLog [LStr verdict]],
                   Returns (tt, g2, stdin2))%list
              end
          end
      | (out2, Throws e) => ((start :: out1) ++ out2, Throws e)%list
      | (out2, Exits c) => ((start :: out1) ++ out2, Exits c)%list
      | (out2, Awaits) => ((start :: out1) ++ out2, Awaits)%list
      end
  | (out1, Throws e) => (start :: out1, Throws e)
  | (out1, Exits c) => (start :: out1, Exits c)
  | (out1, Awaits) => (start :: out1, Awaits)
  end.

(** The fields of the game when [start] is over. *)
Record Played : Type := mkPlayed
  { firstMove : string; selection : Selection }.

(** [start()] of a game made with [new Game(diceSet)]. *)
Definition start (diceSet : list Dice.Dice) (stdin : list string)
    (g : Entropy) : list Event * Ending (Played * Entropy * list string) :=
  let welcome := ConsoleLog [LStr "Welcome to the Dice Game!"] in
  match determineFirstMove stdin g with
  | (out1, Returns (first, g1, stdin1)) =>
      match selectDice diceSet stdin1 with
      | (out2, Returns (chosen, stdin2)) =>
          match performThrow stdin2 (userDice chosen) (computerDice chosen)
                  g1 with
          | (out3, Returns (_, g2, stdin3)) =>
              ((welcome :: out1) ++ out2 ++ out3,
               Returns (mkPlayed first chosen, g2, stdin3))%list
          | (out3, Throws e) =>
              ((welcome :: out1) ++ out2 ++ out3, Throws e)%list
          | (out3, Exits c) => ((welcome :: out1) ++ out2 ++ out3, Exits c)%list
          | (out3, Awaits) => ((welcome :: out1) ++ out2 ++ out3, Awaits)%list
          end
      | (out2, Throws e) => ((welcome :: out1) ++ out2, Throws e)%list
      | (out2, Exits c) => ((welcome :: out1) ++ out2, Exits c)%list
      | (out2, Awaits) => ((welcome :: out1) ++ out2, Awaits)%list
      end
  | (out1, Throws e) => (welcome :: out1, Throws e)
  | (out1, Exits c) => (welcome :: out1, Exits c)
  | (out1, Awaits) => (welcome :: out1, Awaits)
  end.

End WithEnvironment.

(** What the script writes: to the standard output as before, or with
    [console.error], where [ErrorMessage e] stands for
    [console.error("Error:", error.message)] on the exception [e] caught. *)
Inductive Output : Type :=
| Wrote (e : Event)
| ErrorMessage (e : Exception)
| ConsoleError (args : list LogItem).

Definition usage : string :=
  "Example usage: node game.js 2,2,4,4,9,9 6,8,1,1,8,6 7,5,3,7,5,3".

(** The main block, on [process.argv.slice(2)]: the [try] covers the
    parsing, the table and the start of the game up to its first prompt;
    what the game throws later is a rejected promise that nothing
    catches.  [showResults] parses the same arguments again, so it has
    the dice the first parsing returned. *)
Definition main (createHmac_sha3_256 : string -> string -> string)
    (Table_toString : list string -> list (list string) -> string)
    (args stdin : list string) (g : Entropy)
  : list Output * Ending (Played * Entropy * list string) :=
  let failed (e : Exception) :=
    [ErrorMessage e; ConsoleError [LStr usage]] in
  match DiceInput.parseDiceConfigs args with
  | Threw e => (failed e, Exits 1)
  | Returned diceSet =>
      match showResults Table_toString diceSet with
      | (table, Threw e) => ((map Wrote table ++ failed e)%list, Exits 1)
      | (table, Returned _) =>
          let '(out, ending) :=
            start createHmac_sha3_256 Table_toString diceSet diceSet stdin g in
          (map Wrote (table ++ out), ending)
      end
  end.

End Play.

(** ** Reference notions for the command line *)

Module CommandLine.
Import Js JsText JsNumber.

(** The character [c] occurs nowhere in [s]. *)
Fixpoint free_of (c : ascii) (s : string) : bool :=
  match s with
  | EmptyString => true
  | String a rest => negb (Ascii.eqb a c) && free_of c rest
  end.

(** Every character of [s] is a decimal digit. *)
Fixpoint all_digits (s : string) : bool :=
  match s with
  | EmptyString => true
  | String a rest =>
      match digit_of_ascii a with Some _ => true | None => false end
      && all_digits rest
  end.

(** How a die is written on the command line: its faces with commas
    between them. *)
Definition config_of (d : Dice.Dice) : string :=
  join "," (map (fun f => Js.toString (JInt f)) (Dice.faces d)).

(** A die whose faces are six safe integers. *)
Definition six_safe_faces (d : Dice.Dice) : Prop :=
  List.length (Dice.faces d) = 6%nat /\
  Forall (fun f => Z.abs f <= MAX_SAFE_INTEGER) (Dice.faces d).

(** A command line argument that [new Dice] accepts, and the die made. *)
Definition acceptable (arg : string) : bool :=
  (List.length (split "," arg) =? 6)%nat
  && forallb isInteger (map StringToNumber (split "," arg)).

Definition dice_of (arg : string) : Dice.Dice :=
  Dice.mkDice (map integer_of (map StringToNumber (split "," arg))).

Definition too_few : string :=
  "You must specify at least 3 dice configurations.".
Definition not_six : string := "Each dice must have exactly 6 integers.".

End CommandLine.

(** * Properties *)

(** ** Loops that fill an array index by index *)

Module LoopFacts.
Import Js.

Section Loops.
Context {A : Type} (hole : A).

Lemma array_set_push (v : A) (l : list A) :
  array_set hole (List.length l) v l = (l ++ [v])%list.
Proof.
  unfold array_set. rewrite Nat.ltb_irrefl, Nat.sub_diag. reflexivity.
Qed.

(** Storing [f i] at index [i] for [i = k, k+1, ...] into an array of
    length [k] appends the values in order. *)
Lemma fold_array_set (f : nat -> A) (m : nat) :
  forall (k : nat) (acc : list A),
    List.length acc = k ->
    fold_left (fun acc i => array_set hole i (f i) acc) (seq k m) acc
    = (acc ++ map f (seq k m))%list.
Proof.
  induction m as [|m IH]; intros k acc Hk; simpl.
  - now rewrite app_nil_r.
  - subst k. rewrite array_set_push, IH.
    + now rewrite <- app_assoc.
    + rewrite length_app. simpl. lia.
Qed.

(** The same loop threading a state: the array grows by one element per
    index, and what holds of every stored value holds of every element. *)
Lemma fold_array_set_state {St : Type} (step : nat -> St -> A * St)
      (P : nat -> A -> Prop) :
  (forall j s, P j (fst (step j s))) ->
  forall (m k : nat) (row0 : list A) (s0 : St),
    List.length row0 = k ->
    (forall j a, nth_error row0 j = Some a -> P j a) ->
    let '(row, _) :=
      fold_left (fun '(row, s) j =>
                   let '(a, s') := step j s in (array_set hole j a row, s'))
        (seq k m) (row0, s0) in
    List.length row = (k + m)%nat /\
    (forall j a, nth_error row j = Some a -> P j a).
Proof.
  intros Hstep. induction m as [|m IH]; intros k row0 s0 Hk Hrow; simpl.
  - split; [lia | exact Hrow].
  - destruct (step k s0) as [a s1] eqn:E. subst k.
    rewrite array_set_push.
    specialize (IH (S (List.length row0)) (row0 ++ [a])%list s1).
    destruct (fold_left _ _ _) as [row s].
    destruct IH as [Hlen Hall].
    + rewrite length_app. simpl. lia.
    + intros j b Hj.
      destruct (Nat.lt_ge_cases j (List.length row0)) as [Hlt | Hge].
      * rewrite nth_error_app1 in Hj by exact Hlt. now apply Hrow.
      * rewrite nth_error_app2 in Hj by exact Hge.
        destruct (j - List.length row0)%nat as [|d] eqn:Ed; simpl in Hj.
        -- injection Hj as <-. replace j with (List.length row0) by lia.
           specialize (Hstep (List.length row0) s0). now rewrite E in Hstep.
        -- destruct d; discriminate.
    + split; [lia | exact Hall].
Qed.

End Loops.

Lemma nth_error_map_seq {A : Type} (f : nat -> A) (n i : nat) :
  (i < n)%nat -> nth_error (map f (seq 0 n)) i = Some (f i).
Proof.
  intros H. rewrite nth_error_map.
  rewrite (nth_error_nth' (seq 0 n) 0%nat) by (rewrite length_seq; exact H).
  rewrite seq_nth by exact H. reflexivity.
Qed.

End LoopFacts.

(** ** Counting the pairs of faces *)

Module CountFacts.
Import Js ProbabilityCalculator Reference.

Lemma sumZ_ext f g l : (forall x, In x l -> f x = g x) -> sumZ f l = sumZ g l.
Proof.
  induction l as [|x l IH]; simpl; intros H; [reflexivity|].
  rewrite H by now left. rewrite IH; [reflexivity|]. intros; apply H; now right.
Qed.

Lemma sumZ_add f g l : sumZ (fun x => f x + g x) l = sumZ f l + sumZ g l.
Proof. induction l as [|x l IH]; simpl; lia. Qed.

Lemma sumZ_const c l : sumZ (fun _ => c) l = c * Z.of_nat (List.length l).
Proof. induction l as [|x l IH]; simpl List.length; simpl sumZ; lia. Qed.

Lemma sumZ_nonneg f l : (forall x, In x l -> 0 <= f x) -> 0 <= sumZ f l.
Proof.
  induction l as [|x l IH]; simpl; intros H; [lia|].
  pose proof (H x (or_introl eq_refl)).
  assert (0 <= sumZ f l) by (apply IH; intros; apply H; now right). lia.
Qed.

Lemma sumZ_zero f l :
  (forall x, In x l -> 0 <= f x) ->
  (sumZ f l = 0 <-> forall x, In x l -> f x = 0).
Proof.
  induction l as [|x l IH]; simpl; intros H.
  - split; [intros _ y []| reflexivity].
  - pose proof (H x (or_introl eq_refl)) as Hx.
    assert (Hl : forall y, In y l -> 0 <= f y) by (intros; apply H; now right).
    pose proof (sumZ_nonneg f l Hl) as Hs. specialize (IH Hl).
    split.
    + intros E y [<- | Hy]; [lia|]. apply IH; [lia | exact Hy].
    + intros E. rewrite (E x) by now left.
      assert (sumZ f l = 0) by (apply IH; intros; apply E; now right). lia.
Qed.

Lemma sumZ_swap (f : Z -> Z -> Z) a b :
  sumZ (fun x => sumZ (fun y => f x y) b) a
  = sumZ (fun y => sumZ (fun x => f x y) a) b.
Proof.
  induction a as [|x a IH]; simpl.
  - now rewrite sumZ_const.
  - rewrite IH, <- sumZ_add. reflexivity.
Qed.

Lemma ind_nonneg b : 0 <= ind b.
Proof. destruct b; simpl; lia. Qed.

(** The inner loop adds one per element that passes the test. *)
Lemma inner_loop (p : Z -> bool) l :
  forall c,
    fold_left (fun count b => if p b then count + 1 else count) l c
    = c + sumZ (fun b => ind (p b)) l.
Proof.
  induction l as [|y l IH]; intros c; simpl; [lia|].
  rewrite IH. unfold ind. destruct (p y); lia.
Qed.

Lemma count_wins_sum a b :
  count_wins a b = sumZ (fun x => sumZ (fun y => ind (y <? x)) b) a.
Proof.
  unfold count_wins.
  enough (H : forall c,
             fold_left
               (fun count x =>
                  fold_left (fun count y => if y <? x then count + 1 else count)
                    b count) a c
             = c + sumZ (fun x => sumZ (fun y => ind (y <? x)) b) a)
    by (rewrite H; lia).
  induction a as [|x a IH]; intros c; simpl; [lia|].
  rewrite IH, (inner_loop (fun y => y <? x)). lia.
Qed.

Lemma sum_row (p : Z -> Z -> bool) x b :
  sumZ (fun y => ind (p x y)) b
  = Z.of_nat (List.length (filter (fun '(x, y) => p x y) (map (pair x) b))).
Proof.
  induction b as [|y b IH]; simpl; [reflexivity|].
  rewrite IH. unfold ind. destruct (p x y); simpl List.length.
  - rewrite Nat2Z.inj_succ. apply Z.add_1_l.
  - apply Z.add_0_l.
Qed.

Lemma sum_pairs (p : Z -> Z -> bool) a b :
  sumZ (fun x => sumZ (fun y => ind (p x y)) b) a
  = Z.of_nat (List.length (filter (fun '(x, y) => p x y) (list_prod a b))).
Proof.
  induction a as [|x a IH]; simpl; [reflexivity|].
  rewrite filter_app, length_app, Nat2Z.inj_add, IH, sum_row. reflexivity.
Qed.

(** The loops count exactly the strictly greater pairs. *)
Lemma count_wins_enumeration a b :
  count_wins a b = Z.of_nat (List.length (strictly_greater_pairs a b)).
Proof.
  rewrite count_wins_sum. apply (sum_pairs (fun x y => y <? x)).
Qed.

(** Every pair is a win of one die, a win of the other, or a tie. *)
Lemma wins_and_ties a b :
  count_wins a b + count_wins b a + ties a b
  = Z.of_nat (List.length a) * Z.of_nat (List.length b).
Proof.
  rewrite !count_wins_sum.
  rewrite (sumZ_swap (fun y x => ind (x <? y)) b a).
  unfold ties. rewrite <- !sumZ_add.
  rewrite (sumZ_ext _ (fun _ => Z.of_nat (List.length b))).
  - rewrite sumZ_const. lia.
  - intros x _. rewrite <- !sumZ_add.
    rewrite (sumZ_ext _ (fun _ => 1)).
    + rewrite sumZ_const. lia.
    + intros y _. unfold ind.
      destruct (y <? x) eqn:E1, (x <? y) eqn:E2, (x =? y) eqn:E3; lia.
Qed.

Lemma ties_nonneg a b : 0 <= ties a b.
Proof.
  apply sumZ_nonneg. intros x _. apply sumZ_nonneg. intros; apply ind_nonneg.
Qed.

Lemma ties_zero a b :
  ties a b = 0 <-> (forall x y, In x a -> In y b -> x <> y).
Proof.
  unfold ties. rewrite sumZ_zero.
  2:{ intros x _. apply sumZ_nonneg. intros; apply ind_nonneg. }
  split.
  - intros H x y Hx Hy. specialize (H x Hx).
    rewrite sumZ_zero in H by (intros; apply ind_nonneg).
    specialize (H y Hy). unfold ind in H. destruct (x =? y) eqn:E; lia.
  - intros H x Hx. apply sumZ_zero; [intros; apply ind_nonneg|].
    intros y Hy. specialize (H x y Hx Hy). unfold ind.
    destruct (x =? y) eqn:E; lia.
Qed.

Lemma count_wins_nonneg a b : 0 <= count_wins a b.
Proof.
  rewrite count_wins_sum. apply sumZ_nonneg. intros x _.
  apply sumZ_nonneg. intros; apply ind_nonneg.
Qed.

Lemma in_counts c : 0 <= c <= 36 -> In c counts.
Proof.
  intros H. replace c with (Z.of_nat (Z.to_nat c)) by lia.
  apply in_map, in_seq. lia.
Qed.

(** [count / 36] is never half-way between two numbers of four decimals:
    no rounding rule is ever called upon to break a tie. *)
Lemma no_rounding_tie c : (2 * (c * 10000)) mod 72 <> 36.
Proof.
  intros H. pose proof (Z.div_mod (2 * (c * 10000)) 72 ltac:(lia)) as E.
  rewrite H in E. lia.
Qed.

(** On the 37 counts of two six-faced dice, the floating-point division,
    [toFixed(4)] and [Number] return the double of the exactly rounded
    decimal. *)
Lemma probability_of_count_exact c :
  0 <= c <= 36 ->
  probability_of_count c = decimal4 (rounded_ten_thousandths c).
Proof.
  intros H. apply in_counts in H.
  cbv [counts seq map] in H. simpl Z.of_nat in H.
  repeat (destruct H as [<- | H]; [vm_compute; reflexivity|]).
  destruct H.
Qed.

Lemma sum_check_all :
  forallb
    (fun c1 => forallb (fun c2 => (36 <? c1 + c2) || sum_check c1 c2) counts)
    counts = true.
Proof. vm_compute. reflexivity. Qed.

Lemma sum_check_ok c1 c2 :
  0 <= c1 -> 0 <= c2 -> c1 + c2 <= 36 -> sum_check c1 c2 = true.
Proof.
  intros H1 H2 H.
  pose proof sum_check_all as A. rewrite forallb_forall in A.
  specialize (A c1 (in_counts c1 ltac:(lia))). rewrite forallb_forall in A.
  specialize (A c2 (in_counts c2 ltac:(lia))).
  apply orb_true_iff in A. destruct A as [A | A]; [lia | exact A].
Qed.

End CountFacts.

(** ** Decimal digits: [toString] and [parseInt] *)

Module DigitFacts.
Import Js Reference.

Lemma of_uint_acc_val (d : Decimal.uint) :
  forall p, Z.pos (Pos.of_uint_acc d p) = uint_val d (Z.pos p).
Proof.
  induction d; intros p; cbn [Pos.of_uint_acc uint_val]; try reflexivity;
    rewrite IHd; f_equal; lia.
Qed.

Lemma of_uint_val (d : Decimal.uint) : Z.of_N (Pos.of_uint d) = uint_val d 0.
Proof.
  induction d; cbn [Pos.of_uint uint_val Z.of_N]; try reflexivity;
    try exact IHd; rewrite of_uint_acc_val; reflexivity.
Qed.

Lemma scan_digits_stops (suffix : string) (acc : option Z) :
  no_digit_ahead suffix -> scan_digits suffix acc = acc.
Proof.
  destruct suffix as [|c rest]; simpl; intros H; [reflexivity|].
  now rewrite H.
Qed.

Ltac eval_digit :=
  match goal with
  | |- context [digit_of_ascii ?c] =>
      let v := eval vm_compute in (digit_of_ascii c) in
      change (digit_of_ascii c) with v; cbv iota beta
  end.

Lemma scan_digits_uint (suffix : string) (d : Decimal.uint) :
  no_digit_ahead suffix ->
  forall acc a,
    d <> Decimal.Nil ->
    a = match acc with Some a => a | None => 0 end ->
    scan_digits (NilEmpty.string_of_uint d ++ suffix) acc
    = Some (uint_val d a).
Proof.
  intros Hs. induction d; intros acc a Hd ->; try contradiction;
    cbn [NilEmpty.string_of_uint append scan_digits uint_val]; eval_digit;
    (destruct d;
     [ cbn [NilEmpty.string_of_uint append uint_val];
       now rewrite scan_digits_stops
     | erewrite IHd; [reflexivity | discriminate | reflexivity] .. ]).
Qed.

(** The decimal digits of a natural number: never empty, and denoting it. *)
Lemma integer_digits_natural (c : Z) :
  0 <= c ->
  exists d : Decimal.uint,
    d <> Decimal.Nil /\
    integer_digits c = NilEmpty.string_of_uint d /\
    uint_val d 0 = c.
Proof.
  intros H. destruct c as [|p|p]; [| |lia].
  - exists (Decimal.D0 Decimal.Nil). repeat split. discriminate.
  - exists (Pos.to_uint p). split; [apply Unsigned.to_uint_nonnil|]. split.
    + unfold integer_digits. cbn [Z.to_int NilZero.string_of_int].
      unfold NilZero.string_of_uint.
      pose proof (Unsigned.to_uint_nonnil p) as N.
      destruct (Pos.to_uint p); try reflexivity. contradiction.
    + rewrite <- of_uint_val.
      now rewrite DecimalPos.Unsigned.of_to.
Qed.

(** A safe integer prints as its digits. *)
Lemma toString_safe (z : Z) :
  Z.abs z <= MAX_SAFE_INTEGER -> toString (JInt z) = integer_digits z.
Proof.
  intros H. cbn [toString].
  replace (Z.abs z <=? MAX_SAFE_INTEGER) with true
    by (symmetry; apply Z.leb_le; exact H).
  reflexivity.
Qed.

(** Beyond the safe integers: the fewest digits that read back, zeros up
    to 21 digits, an exponent from there on. *)
Example toString_beyond_safe :
  toString (JInt (2 ^ 53)) = "9007199254740992" /\
  toString (JInt (2 ^ 56)) = "72057594037927940" /\
  toString (JInt (- 2 ^ 56)) = "-72057594037927940" /\
  toString (JInt (2 ^ 64)) = "18446744073709552000" /\
  toString (JInt (10 ^ 21)) = "1e+21" /\
  toString (JInt (2 ^ 70)) = "1.1805916207174113e+21" /\
  toString (JInt 99999999999999991611392) = "1e+23".
Proof. repeat split; vm_compute; reflexivity. Qed.

Lemma toString_digits (c : Z) :
  0 <= c <= MAX_SAFE_INTEGER ->
  exists d : Decimal.uint,
    d <> Decimal.Nil /\
    toString (JInt c) = NilEmpty.string_of_uint d /\
    uint_val d 0 = c.
Proof.
  intros H. rewrite toString_safe by lia.
  apply integer_digits_natural. lia.
Qed.

Lemma digit_string_head (d : Decimal.uint) (suffix : string) :
  d <> Decimal.Nil ->
  exists c rest,
    (NilEmpty.string_of_uint d ++ suffix)%string = String c rest /\
    digit_of_ascii c <> None.
Proof.
  intros H. destruct d; try contradiction;
    cbn [NilEmpty.string_of_uint append]; eexists _, _;
    (split; [reflexivity | vm_compute; discriminate]).
Qed.

(** A string that starts with a digit is read from its first character. *)
Lemma parseInt_digit_head (c : ascii) (rest : string) :
  digit_of_ascii c <> None ->
  parseInt (String c rest)
  = match scan_digits (String c rest) None with
    | Some n => round_to_double n
    | None => JNaN
    end.
Proof.
  intros H.
  destruct c as [[] [] [] [] [] [] [] []];
    try (exfalso; apply H; vm_compute; reflexivity); reflexivity.
Qed.

(** A string that starts with neither white space, a sign nor a digit is
    not a number. *)
Lemma parseInt_no_number (c : ascii) (rest : string) :
  is_white_space c = false -> c <> "-"%char -> c <> "+"%char ->
  digit_of_ascii c = None ->
  parseInt (String c rest) = JNaN.
Proof.
  intros W M P D.
  destruct c as [[] [] [] [] [] [] [] []];
    try (vm_compute in W; discriminate W);
    try (vm_compute in D; discriminate D);
    try (exfalso; apply M; reflexivity);
    try (exfalso; apply P; reflexivity);
    reflexivity.
Qed.

(** [parseInt] reads the digits of a number back and ignores what follows
    them. *)
Lemma parseInt_toString (c : Z) (suffix : string) :
  0 <= c <= MAX_SAFE_INTEGER -> no_digit_ahead suffix ->
  parseInt (toString (JInt c) ++ suffix) = round_to_double c.
Proof.
  intros Hc Hs.
  destruct (toString_digits c Hc) as (d & Hd & -> & Hv).
  destruct (digit_string_head d suffix Hd) as (a & rest & E & Ha).
  rewrite E, parseInt_digit_head by exact Ha. rewrite <- E.
  rewrite (scan_digits_uint suffix d Hs None 0 Hd eq_refl).
  now rewrite Hv.
Qed.

Lemma append_empty (s : string) : (s ++ "")%string = s.
Proof. induction s as [|c s IH]; simpl; [reflexivity | now rewrite IH]. Qed.

Lemma toString_not_command (c : Z) (cmd : ascii) :
  0 <= c <= MAX_SAFE_INTEGER -> digit_of_ascii cmd = None ->
  (toString (JInt c) =? String cmd "")%string = false.
Proof.
  intros Hc Hcmd.
  destruct (toString_digits c Hc) as (d & Hd & -> & _).
  destruct (digit_string_head d "" Hd) as (a & rest & E & Ha).
  rewrite append_empty in E. rewrite E.
  apply String.eqb_neq. intros X. injection X as -> _. contradiction.
Qed.

Lemma round_to_double_safe (z : Z) :
  Z.abs z <= MAX_SAFE_INTEGER -> round_to_double z = JInt z.
Proof.
  unfold MAX_SAFE_INTEGER, round_to_double. intros H.
  replace (Z.abs z <? 2 ^ 53) with true by (symmetry; apply Z.ltb_lt; lia).
  reflexivity.
Qed.

End DigitFacts.

(** ** The commit-reveal generator *)

Module CommitReveal.
Import Js Crypto FairRandomGenerator Reference.

(** [randomBytes n] reads the next [n] cells of the tape. *)
Lemma randomBytes_reads (n : nat) :
  forall g,
    randomBytes n g
    = (read_bytes g n, mkEntropy (tape g) (cursor g + n)).
Proof.
  unfold read_bytes.
  induction n as [|n IH]; intros g; simpl.
  - now rewrite Nat.add_0_r; destruct g.
  - rewrite IH. simpl. rewrite Nat.add_0_r. f_equal.
    + f_equal. rewrite <- seq_shift, map_map. apply map_ext.
      intros i. f_equal. f_equal. lia.
    + f_equal. lia.
Qed.

Section WithMac.
Variable mac : string -> string -> string.

Lemma randomInt_draws (range : Z) (g : Entropy) :
  1 <= range <= RAND_MAX ->
  randomInt 0 range g
  = Returned (tape g (cursor g) mod range, mkEntropy (tape g) (S (cursor g))).
Proof.
  intros [H1 H2]. unfold randomInt, isSafeInteger, next.
  unfold RAND_MAX, MAX_SAFE_INTEGER in *.
  replace (Z.abs 0 <=? 2 ^ 53 - 1) with true by reflexivity.
  replace (Z.abs range <=? 2 ^ 53 - 1) with true
    by (symmetry; apply Z.leb_le; lia).
  replace (range <=? 0) with false by (symmetry; apply Z.leb_gt; lia).
  rewrite Z.sub_0_r.
  replace (range <=? 281474976710655) with true
    by (symmetry; apply Z.leb_le; lia).
  cbn [negb]. now rewrite Z.add_0_r.
Qed.

Lemma randomInt_rejects (range : Z) (g : Entropy) :
  range <= 0 \/ RAND_MAX < range ->
  randomInt 0 range g
  = Threw (if isSafeInteger range then ERR_OUT_OF_RANGE
           else ERR_INVALID_ARG_TYPE).
Proof.
  intros H. unfold randomInt. unfold RAND_MAX in *.
  replace (isSafeInteger 0) with true by reflexivity.
  destruct (isSafeInteger range); cbn [negb]; [|reflexivity].
  destruct (Z.leb_spec range 0) as [L|L]; [reflexivity|].
  rewrite Z.sub_0_r.
  replace (range <=? 281474976710655) with false
    by (symmetry; apply Z.leb_gt; lia).
  reflexivity.
Qed.

Lemma generateRandom_succeeds (range : Z) (g : Entropy) :
  1 <= range <= RAND_MAX ->
  let key := hex (read_bytes g 32) in
  let value := tape g (cursor g + 32) mod range in
  generateRandom mac range g
  = Returned (mkCommitment value (mac key (toString (JInt value))) key,
              mkEntropy (tape g) (cursor g + 33)).
Proof.
  intros H key value. unfold generateRandom.
  rewrite randomBytes_reads, randomInt_draws by exact H.
  cbn [bind tape cursor]. subst key value.
  replace (S (cursor g + 32)) with (cursor g + 33)%nat by lia.
  reflexivity.
Qed.

Lemma generateRandom_fails (range : Z) (g : Entropy) :
  range <= 0 \/ RAND_MAX < range ->
  generateRandom mac range g
  = Threw (if isSafeInteger range then ERR_OUT_OF_RANGE
           else ERR_INVALID_ARG_TYPE).
Proof.
  intros H. unfold generateRandom.
  rewrite randomBytes_reads, randomInt_rejects by exact H.
  reflexivity.
Qed.

(** A commitment is only ever returned for a range that [randomInt]
    accepts, and its value lies in the range. *)
Lemma generateRandom_returned (range : Z) (g g' : Entropy) (c : Commitment) :
  generateRandom mac range g = Returned (c, g') ->
  1 <= range <= RAND_MAX /\ 0 <= randomValue c < range.
Proof.
  intros H.
  destruct (Z_le_gt_dec range 0) as [L | L].
  { rewrite generateRandom_fails in H by lia. discriminate H. }
  destruct (Z_le_gt_dec range RAND_MAX) as [U | U].
  - rewrite generateRandom_succeeds in H by lia. injection H as <- _.
    cbn [randomValue]. split; [lia | apply Z.mod_pos_bound; lia].
  - rewrite generateRandom_fails in H by lia. discriminate H.
Qed.

(** C1. Commit-reveal round trip: whenever [generateRandom(range)], with
    [range >= 1], returns [{ randomValue, hmac, key }], then
    [verifyHMAC(randomValue, key, hmac)] returns [true]: the verifier
    recomputes the MAC of the same decimal string under the same key and
    compares it with the published one. *)
Theorem verify_generated (range : Z) (g g' : Entropy) (c : Commitment) :
  1 <= range ->
  generateRandom mac range g = Returned (c, g') ->
  verifyHMAC mac (randomValue c) (key c) (hmac c) = Returned true.
Proof.
  intros Hr H.
  destruct (Z_le_gt_dec range RAND_MAX) as [Hle | Hgt].
  - rewrite generateRandom_succeeds in H by lia.
    injection H as <- _. cbn [key randomValue hmac]. unfold verifyHMAC.
    rewrite String.eqb_refl. reflexivity.
  - rewrite generateRandom_fails in H by lia. discriminate H.
Qed.

(** C7, as the code has it. On every value that is a safe integer (as
    every value the game commits to is), every key and every digest,
    [verifyHMAC] returns a boolean, [true] exactly when the digest is the
    MAC of the digits of the value under the key; it never throws,
    whatever the length or the characters of the key and of the digest
    (there is no well-formedness check and no [MalformedCommitmentError]
    in the script). *)
Theorem verifyHMAC_returns (value : Z) (key hmac : string) :
  Z.abs value <= MAX_SAFE_INTEGER ->
  exists b : bool,
    verifyHMAC mac value key hmac = Returned b /\
    (b = true <-> hmac = mac key (integer_digits value)) /\
    (forall e, verifyHMAC mac value key hmac <> Threw e).
Proof.
  intros S. unfold verifyHMAC. rewrite (DigitFacts.toString_safe value S).
  eexists. split; [reflexivity|]. split.
  - apply String.eqb_eq.
  - discriminate.
Qed.

End WithMac.

Lemma verifyHMAC_returns_witness :
  exists b : bool,
    verifyHMAC sample_mac 1 "" "zz" = Returned b /\
    (b = true <-> "zz" = sample_mac "" (integer_digits 1)) /\
    (forall e, verifyHMAC sample_mac 1 "" "zz" <> Threw e).
Proof.
  apply (verifyHMAC_returns sample_mac 1 "" "zz").
  unfold MAX_SAFE_INTEGER. simpl. lia.
Defined.

Lemma verify_generated_witness :
  verifyHMAC sample_mac 1
    sample_key
    (hmac sample_commitment)
  = Returned true.
Proof.
  apply (verify_generated sample_mac 6 sample_entropy
           sample_entropy_after
           sample_commitment).
  - lia.
  - vm_compute. reflexivity.
Defined.

(** C6, as the code has it. [generateRandom] has no check of its own; what
    it does with [range] is what [crypto.randomInt(0, range)] does.  For
    [range <= 0] it fails, with the [RangeError] [ERR_OUT_OF_RANGE] when
    [range] is a safe integer.  For [1 <= range <= 2^48 - 1] it returns a
    commitment: the key is the hexadecimal of 32 bytes of entropy not read
    before (the cursor moves past them, so the next call reads others),
    [randomValue] is in [[0, range)] and [hmac] is the MAC of its decimal
    string under the key.  For [range >= 2^48] it fails again. *)
Theorem generateRandom_by_range (mac : string -> string -> string)
    (range : Z) (g : Entropy) :
  (range <= 0 -> exists e, generateRandom mac range g = Threw e) /\
  (- MAX_SAFE_INTEGER <= range <= 0 ->
   generateRandom mac range g = Threw ERR_OUT_OF_RANGE) /\
  (1 <= range <= RAND_MAX ->
   exists c : Commitment,
     generateRandom mac range g
     = Returned (c, mkEntropy (tape g) (cursor g + 33)) /\
     key c = hex (read_bytes g 32) /\
     randomValue c = tape g (cursor g + 32) mod range /\
     0 <= randomValue c < range /\
     hmac c = mac (key c) (toString (JInt (randomValue c)))) /\
  (RAND_MAX < range -> exists e, generateRandom mac range g = Threw e).
Proof.
  split; [|split; [|split]].
  - intros H. eexists. apply generateRandom_fails; now left.
  - intros H. rewrite generateRandom_fails by lia.
    unfold isSafeInteger.
    replace (Z.abs range <=? MAX_SAFE_INTEGER) with true
      by (symmetry; apply Z.leb_le; lia).
    reflexivity.
  - intros H. eexists. split; [now apply generateRandom_succeeds|].
    cbn [key randomValue hmac].
    repeat split; try reflexivity; apply Z.mod_pos_bound; lia.
  - intros H. eexists. apply generateRandom_fails; now right.
Qed.

Lemma generateRandom_by_range_witness :
  (exists e, generateRandom sample_mac 0 sample_entropy = Threw e) /\
  (exists c,
      generateRandom sample_mac 6 sample_entropy
      = Returned (c, sample_entropy_after) /\
      0 <= randomValue c < 6).
Proof.
  destruct (generateRandom_by_range sample_mac 0 sample_entropy)
    as (H0 & _).
  destruct (generateRandom_by_range sample_mac 6 sample_entropy)
    as (_ & _ & H6 & _).
  split.
  - apply H0. lia.
  - destruct H6 as (c & E & _ & _ & B & _); [unfold RAND_MAX; lia|].
    exists c. split; assumption.
Defined.

(** C6 as stated fails: [range = 2^48] is at least 1 and [generateRandom]
    throws on it, whatever the MAC and the entropy. *)
Lemma generateRandom_rejects_large_range :
  1 <= 281474976710656 /\
  forall mac g, generateRandom mac 281474976710656 g = Threw ERR_OUT_OF_RANGE.
Proof.
  split; [lia|]. intros mac g.
  now rewrite generateRandom_fails by (unfold RAND_MAX; lia).
Qed.

(** C7 as stated fails: an empty key and the digest ["zz"] are not well
    formed, and [verifyHMAC] answers with a boolean ([false] for every MAC
    of 64 characters) instead of throwing. *)
Lemma verifyHMAC_answers_on_malformed :
  well_formed "zz" = false /\ well_formed "" = false /\
  (forall mac, exists b, verifyHMAC mac 0 "" "zz" = Returned b) /\
  (forall mac, String.length (mac "" "0") = 64%nat ->
               verifyHMAC mac 0 "" "zz" = Returned false).
Proof.
  split; [reflexivity|]. split; [reflexivity|]. split.
  - intros mac. eexists. reflexivity.
  - intros mac H. unfold verifyHMAC. f_equal.
    apply String.eqb_neq. intros E.
    change (toString (JInt 0)) with "0" in E. rewrite <- E in H. discriminate.
Qed.
(** X1. The value of every commitment [generateRandom(range)] returns lies
    in [[0, range)]. *)
Theorem generated_value_in_range (mac : string -> string -> string)
    (range : Z) (g g' : Entropy) (c : Commitment) :
  generateRandom mac range g = Returned (c, g') ->
  0 <= randomValue c < range.
Proof. intros H. apply (generateRandom_returned mac range g g' c H). Qed.

Lemma generated_value_in_range_witness :
  0 <= 1 < 6.
Proof.
  apply (generated_value_in_range sample_mac 6 sample_entropy
           sample_entropy_after
           sample_commitment).
  vm_compute. reflexivity.
Defined.

(** X2. Tampering with the digest is detected: for a commitment that
    [generateRandom] returned, [verifyHMAC] on its value and key answers
    [false] to every digest other than the published one. *)
Theorem verify_rejects_other_digest (mac : string -> string -> string)
    (range : Z) (g g' : Entropy) (c : Commitment) (digest : string) :
  generateRandom mac range g = Returned (c, g') ->
  digest <> hmac c ->
  verifyHMAC mac (randomValue c) (key c) digest = Returned false.
Proof.
  intros H D.
  destruct (generateRandom_returned mac range g g' c H) as [Hr _].
  rewrite generateRandom_succeeds in H by exact Hr.
  injection H as <- _. cbn [key randomValue hmac] in *. unfold verifyHMAC.
  f_equal. apply String.eqb_neq. exact D.
Qed.

Lemma verify_rejects_other_digest_witness :
  verifyHMAC sample_mac 1
    sample_key
    "152a4f7499bee3082d52779cc1e60b30557a9fc4e90e33587da2c7ec11365b80:1"
  = Returned false.
Proof.
  apply (verify_rejects_other_digest sample_mac 6 sample_entropy
           sample_entropy_after
           sample_commitment).
  - vm_compute. reflexivity.
  - discriminate.
Defined.

End CommitReveal.

(** ** The probability table *)

Module Odds.
Import Js Dice ProbabilityCalculator Reference LoopFacts CountFacts.

(** [calculateProbability] looks at the faces through [count] only. *)
Lemma calculateProbability_of_count a b :
  calculateProbability a b = probability_of_count (count_wins a b).
Proof. reflexivity. Qed.

(** [calculate] returns the table of the entries, row by row. *)
Lemma calculate_table diceSet :
  calculate diceSet
  = map (fun i => map (entry diceSet i) (seq 0 (List.length diceSet)))
      (seq 0 (List.length diceSet)).
Proof.
  unfold calculate.
  rewrite (fold_array_set [] _ _ 0%nat []) by reflexivity. simpl.
  apply map_ext. intros i.
  now rewrite (fold_array_set CUndefined _ _ 0%nat []).
Qed.

Lemma cell_calculate diceSet i j :
  (i < List.length diceSet)%nat -> (j < List.length diceSet)%nat ->
  cell (calculate diceSet) i j = Some (entry diceSet i j).
Proof.
  intros Hi Hj. unfold cell. rewrite calculate_table.
  rewrite nth_error_map_seq by exact Hi.
  now rewrite nth_error_map_seq.
Qed.

Lemma faces_at_six diceSet i :
  Forall six_faces diceSet -> (i < List.length diceSet)%nat ->
  List.length (faces_at diceSet i) = 6%nat.
Proof.
  intros Hall Hi. rewrite Forall_forall in Hall.
  apply Hall, nth_In, Hi.
Qed.

Lemma count_wins_bound a b :
  List.length a = 6%nat -> List.length b = 6%nat ->
  0 <= count_wins a b <= 36.
Proof.
  intros Ha Hb. pose proof (wins_and_ties a b) as E. rewrite Ha, Hb in E.
  pose proof (count_wins_nonneg a b). pose proof (count_wins_nonneg b a).
  pose proof (ties_nonneg a b). lia.
Qed.

(** C2, as the code has it. For two dice of six faces,
    [calculateProbability(diceA, diceB)] is the number of ordered face pairs
    [(a, b)] with [a > b], out of the 36 pairs, divided by 36 and rounded to
    four decimals (no count is half-way between two such numbers, so no
    rounding rule matters).  For [A = [2,2,4,4,9,9]] and
    [B = [6,8,1,1,8,6]] the count is 20 and the result [0.5556]; [0.4444]
    is the result for B against A (16 pairs). *)
Theorem calculateProbability_exact (diceA diceB : list Z) :
  List.length diceA = 6%nat -> List.length diceB = 6%nat ->
  let count := Z.of_nat (List.length (strictly_greater_pairs diceA diceB)) in
  List.length (list_prod diceA diceB) = 36%nat /\
  count_wins diceA diceB = count /\
  calculateProbability diceA diceB = decimal4 (rounded_ten_thousandths count) /\
  (2 * (count * 10000)) mod 72 <> 36 /\
  count_wins (faces dieA) (faces dieB) = 20 /\
  calculateProbability (faces dieA) (faces dieB) = decimal4 5556 /\
  count_wins (faces dieB) (faces dieA) = 16 /\
  calculateProbability (faces dieB) (faces dieA) = decimal4 4444.
Proof.
  intros Ha Hb count.
  assert (Hc : count_wins diceA diceB = count) by apply count_wins_enumeration.
  split; [rewrite length_prod, Ha, Hb; reflexivity|].
  split; [exact Hc|].
  split.
  - rewrite calculateProbability_of_count, Hc.
    apply probability_of_count_exact. rewrite <- Hc.
    now apply count_wins_bound.
  - split; [apply no_rounding_tie|].
    repeat split; vm_compute; reflexivity.
Qed.

Lemma calculateProbability_exact_witness :
  calculateProbability [7; 5; 3; 7; 5; 3] [2; 2; 4; 4; 9; 9] = decimal4 5556.
Proof.
  pose proof (calculateProbability_exact [7; 5; 3; 7; 5; 3] [2; 2; 4; 4; 9; 9]
                eq_refl eq_refl) as H.
  cbv zeta in H. destruct H as (_ & _ & H & _). rewrite H.
  vm_compute. reflexivity.
Defined.

(** C2 as stated fails: direct enumeration gives 20 strictly greater pairs
    for A against B and the result is [0.5556], more than a tenth away
    from [0.4444]. *)
Lemma A_beats_B_is_not_0_4444 :
  List.length (strictly_greater_pairs (faces dieA) (faces dieB)) = 20%nat /\
  calculateProbability (faces dieA) (faces dieB) = decimal4 5556 /\
  (calculateProbability (faces dieA) (faces dieB) =? decimal4 4444)%float = false /\
  (decimal4 1000
   <? abs (calculateProbability (faces dieA) (faces dieB) - decimal4 4444))%float
  = true.
Proof. repeat split; vm_compute; reflexivity. Qed.

(** C3. Tie handling: for two different dice [i] and [j] of a set of
    six-faced dice, the two off-diagonal entries are numbers; every pair of
    faces is a win of one die, a win of the other or a tie, so the two
    counts add up to at most 36; [matrix[i][j] + matrix[j][i] == 1] holds
    exactly when the dice have no equal pair of faces; and when they share
    a face value [matrix[i][j] + matrix[j][i] < 1]. The sums and the
    comparisons are the floating-point ones. *)
Theorem tie_handling (diceSet : list Dice) (i j : nat) :
  Forall six_faces diceSet ->
  (i < List.length diceSet)%nat -> (j < List.length diceSet)%nat -> i <> j ->
  let a := faces_at diceSet i in
  let b := faces_at diceSet j in
  exists p q : float,
    cell (calculate diceSet) i j = Some (CNum p) /\
    cell (calculate diceSet) j i = Some (CNum q) /\
    count_wins a b + count_wins b a + ties a b = 36 /\
    count_wins a b + count_wins b a <= 36 /\
    ((p + q =? 1)%float = true <-> (forall x y, In x a -> In y b -> x <> y)) /\
    ((exists x, In x a /\ In x b) -> (p + q <? 1)%float = true).
Proof.
  intros Hall Hi Hj Hij a b.
  assert (Ha : List.length a = 6%nat) by now apply faces_at_six.
  assert (Hb : List.length b = 6%nat) by now apply faces_at_six.
  pose proof (wins_and_ties a b) as E. rewrite Ha, Hb in E.
  pose proof (count_wins_nonneg a b) as N1.
  pose proof (count_wins_nonneg b a) as N2.
  pose proof (ties_nonneg a b) as N3.
  exists (calculateProbability a b), (calculateProbability b a).
  split; [|split].
  - rewrite cell_calculate by assumption. unfold entry.
    destruct (Nat.eqb_spec i j); [contradiction | reflexivity].
  - rewrite cell_calculate by assumption. unfold entry.
    destruct (Nat.eqb_spec j i); [congruence | reflexivity].
  - split; [lia|]. split; [lia|].
    rewrite !calculateProbability_of_count.
    pose proof (sum_check_ok (count_wins a b) (count_wins b a) N1 N2
                  ltac:(lia)) as C.
    unfold sum_check in C. apply andb_true_iff in C. destruct C as [C1 C2].
    apply eqb_prop in C1.
    split.
    + rewrite C1, Z.eqb_eq, <- ties_zero. lia.
    + intros (x & Hx & Hy).
      assert (ties a b <> 0).
      { intros T. rewrite ties_zero in T. now apply (T x x). }
      destruct (count_wins a b + count_wins b a <? 36) eqn:L; [exact C2 | lia].
Qed.

Lemma tie_handling_witness :
  exists p q : float,
    cell (calculate [dieD; dieE; dieC]) 0 1 = Some (CNum p) /\
    cell (calculate [dieD; dieE; dieC]) 1 0 = Some (CNum q) /\
    (p + q <? 1)%float = true.
Proof.
  destruct (tie_handling [dieD; dieE; dieC] 0 1) as (p & q & H1 & H2 & _ & _ & _ & H3).
  - repeat constructor.
  - simpl; lia.
  - simpl; lia.
  - discriminate.
  - exists p, q. repeat split; try assumption.
    apply H3. exists 6. split; simpl; tauto.
Defined.

Lemma draft_row (n i : nat) (r : MathRandom) :
  let '(row, _) :=
    fold_left
      (fun '(row, r) j =>
         let '(c, r') := Draft.entry i j r in
         (array_set CUndefined j c row, r'))
      (seq 0 n) ([], r) in
  List.length row = n /\
  (forall j c, nth_error row j = Some c -> j = i -> c = CStr self_label).
Proof.
  apply (fold_array_set_state CUndefined (Draft.entry i)
           (fun j c => j = i -> c = CStr self_label)).
  - intros j s ->. unfold Draft.entry. now rewrite Nat.eqb_refl.
  - reflexivity.
  - intros j a H. destruct j; discriminate.
Qed.

Lemma draft_diagonal (diceSet : list Dice) (r : MathRandom) (i : nat) :
  (i < List.length diceSet)%nat ->
  cell (fst (Draft.calculate diceSet r)) i i = Some (CStr self_label).
Proof.
  intros Hi. unfold Draft.calculate.
  set (n := List.length diceSet) in *.
  pose proof (fold_array_set_state []
                (fun i r =>
                   fold_left
                     (fun '(row, r) j =>
                        let '(c, r') := Draft.entry i j r in
                        (array_set CUndefined j c row, r'))
                     (seq 0 n) ([], r))
                (fun i row => (i < n)%nat ->
                              nth_error row i = Some (CStr self_label))) as L.
  specialize (L ltac:(
    intros k s Hk; pose proof (draft_row n k s) as R;
    destruct (fold_left _ _ _) as [row s']; simpl;
    destruct R as [Hlen Hrow];
    destruct (nth_error row k) as [c|] eqn:E;
    [ now rewrite (Hrow k c E eq_refl)
    | apply nth_error_None in E; lia ])).
  specialize (L n 0%nat [] r eq_refl
                ltac:(intros j a H; destruct j; discriminate)).
  destruct (fold_left _ _ _) as [probabilities r'].
  destruct L as [Hlen Hall]. simpl. unfold cell.
  destruct (nth_error probabilities i) as [row|] eqn:E.
  - now apply (Hall i row E).
  - apply nth_error_None in E. lia.
Qed.

(** C4. For every dice set and every index [i] within it, the diagonal
    entry [matrix[i][i]] is the fixed label ["- (0.3333)"] (one third to
    four decimals, in brackets), a string and not the number the pairwise
    formula gives for the die against itself: in [game.js], in the draft
    [t.js] whatever [Math.random] returns, and in the third copy. *)
Theorem diagonal_is_the_label (diceSet : list Dice) (i : nat) :
  (i < List.length diceSet)%nat ->
  cell (calculate diceSet) i i = Some (CStr "- (0.3333)") /\
  cell (calculate diceSet) i i
  <> Some (CNum (calculateProbability (faces_at diceSet i)
                   (faces_at diceSet i))) /\
  (forall r, cell (fst (Draft.calculate diceSet r)) i i
             = Some (CStr "- (0.3333)")) /\
  (exists log matrix,
      Copy.calculate diceSet = (log, Returned matrix) /\
      cell matrix i i = Some (CStr "- (0.3333)")) /\
  "- (0.3333)" = "- (" ++ toFixed4 (float_of_Z 1 / float_of_Z 3)%float ++ ")".
Proof.
  intros Hi.
  assert (D : cell (calculate diceSet) i i = Some (CStr "- (0.3333)")).
  { rewrite cell_calculate by assumption. unfold entry.
    now rewrite Nat.eqb_refl. }
  split; [exact D|]. split; [rewrite D; discriminate|].
  split; [intros r; now apply draft_diagonal|].
  split.
  - destruct diceSet as [|first rest]; [simpl in Hi; lia|].
    eexists _, _. split; [reflexivity | exact D].
  - vm_compute. reflexivity.
Qed.

Lemma diagonal_is_the_label_witness :
  cell (calculate sample_dice) 1 1 = Some (CStr "- (0.3333)").
Proof.
  destruct (diagonal_is_the_label sample_dice 1) as [H _];
    [simpl; lia | exact H].
Defined.

(** C5 fails in the draft [t.js]: on the three sample dice, [calculate]
    returns the table of ["0.2500"] when [Math.random()] keeps returning
    0.25 and the table of ["0.5000"] when it keeps returning 0.5; two calls
    on the same dice need not return equal matrices. *)
Theorem draft_calculate_follows_Math_random :
  fst (Draft.calculate sample_dice (mkMathRandom (fun _ => quarter) 0))
  = [[CStr "- (0.3333)"; CStr "0.2500"; CStr "0.2500"];
     [CStr "0.2500"; CStr "- (0.3333)"; CStr "0.2500"];
     [CStr "0.2500"; CStr "0.2500"; CStr "- (0.3333)"]] /\
  fst (Draft.calculate sample_dice (mkMathRandom (fun _ => half) 0))
  = [[CStr "- (0.3333)"; CStr "0.5000"; CStr "0.5000"];
     [CStr "0.5000"; CStr "- (0.3333)"; CStr "0.5000"];
     [CStr "0.5000"; CStr "0.5000"; CStr "- (0.3333)"]] /\
  fst (Draft.calculate sample_dice (mkMathRandom (fun _ => quarter) 0))
  <> fst (Draft.calculate sample_dice (mkMathRandom (fun _ => half) 0)).
Proof.
  split; [vm_compute; reflexivity|]. split; [vm_compute; reflexivity|].
  vm_compute. discriminate.
Qed.
Lemma probabilities_in_unit_interval :
  forallb (fun c => in_unit_interval (probability_of_count c)) counts = true.
Proof. vm_compute. reflexivity. Qed.

(** The end-to-end scenario: for the dice [2,2,4,4,9,9],
    [6,8,1,1,8,6] and [7,5,3,7,5,3] the table is 3 by 3, its diagonal is
    the label, and each die beats the next with 0.5556 and loses to the
    one before with 0.4444. *)
Theorem sample_matrix :
  calculate sample_dice
  = [[CStr "- (0.3333)"; CNum (decimal4 5556); CNum (decimal4 4444)];
     [CNum (decimal4 4444); CStr "- (0.3333)"; CNum (decimal4 5556)];
     [CNum (decimal4 5556); CNum (decimal4 4444); CStr "- (0.3333)"]].
Proof. vm_compute. reflexivity. Qed.

(** X3. For a set of [n] six-faced dice, [calculate] returns [n] rows of
    [n] entries, and every entry off the diagonal is a number between 0
    and 1. *)
Theorem matrix_shape (diceSet : list Dice) (i j : nat) :
  Forall six_faces diceSet ->
  (i < List.length diceSet)%nat -> (j < List.length diceSet)%nat -> i <> j ->
  List.length (calculate diceSet) = List.length diceSet /\
  Forall (fun row => List.length row = List.length diceSet)
    (calculate diceSet) /\
  exists p : float,
    cell (calculate diceSet) i j = Some (CNum p) /\
    (0 <=? p)%float = true /\ (p <=? 1)%float = true.
Proof.
  intros Hall Hi Hj Hij. rewrite calculate_table.
  split; [now rewrite length_map, length_seq|]. split.
  - apply Forall_forall. intros row Hrow. apply in_map_iff in Hrow.
    destruct Hrow as (k & <- & _). now rewrite length_map, length_seq.
  - rewrite <- calculate_table, cell_calculate by assumption.
    unfold entry. destruct (Nat.eqb_spec i j) as [|_]; [contradiction|].
    eexists. split; [reflexivity|].
    rewrite calculateProbability_of_count.
    pose proof probabilities_in_unit_interval as A.
    rewrite forallb_forall in A.
    specialize (A _ (in_counts _ (count_wins_bound _ _
                     (faces_at_six _ _ Hall Hi) (faces_at_six _ _ Hall Hj)))).
    unfold in_unit_interval in A. now apply andb_true_iff in A.
Qed.

Lemma matrix_shape_witness :
  List.length (calculate sample_dice) = 3%nat /\
  exists p : float,
    cell (calculate sample_dice) 0 2 = Some (CNum p) /\
    (0 <=? p)%float = true /\ (p <=? 1)%float = true.
Proof.
  destruct (matrix_shape sample_dice 0 2) as (L & _ & P).
  - repeat constructor.
  - simpl; lia.
  - simpl; lia.
  - discriminate.
  - split; [exact L | exact P].
Defined.

End Odds.

(** ** The fair throw *)

Module FairThrow.
Import Js Crypto Dice FairRandomGenerator ProbabilityCalculator Game Reference.
Import DigitFacts CommitReveal Odds.

(** The entries [calculate] stores are strings and numbers, which
    [display] can print. *)
Lemma show_cells_entries (ds : list Dice) (i : nat) (l : list nat) :
  show_cells (map (entry ds i) l)
  = Returned (map (fun j => show (entry ds i j)) l).
Proof.
  induction l as [|j l IH]; [reflexivity|].
  cbn [map show_cells]. rewrite IH.
  unfold entry at 1 3. destruct (i =? j)%nat; reflexivity.
Qed.

Lemma table_rows_entries (ds : list Dice) (m : nat) :
  forall k, (k + m <= List.length ds)%nat ->
  exists rows,
    table_rows
      (map (fun i => map (entry ds i) (seq 0 (List.length ds))) (seq k m)) ds k
    = Returned rows.
Proof.
  induction m as [|m IH]; intros k Hk; cbn [seq map table_rows].
  - eexists; reflexivity.
  - destruct (nth_error ds k) as [d|] eqn:E.
    2:{ apply nth_error_None in E. lia. }
    rewrite show_cells_entries. cbn [bind].
    destruct (IH (S k) ltac:(lia)) as [rows ->]. cbn [bind].
    eexists; reflexivity.
Qed.

(** The help table never fails. *)
Lemma showResults_returns tbl (argv : list Dice) :
  snd (showResults tbl argv) = Returned tt.
Proof.
  unfold showResults, display. rewrite calculate_table.
  destruct (table_rows_entries argv (List.length argv) 0%nat ltac:(lia))
    as [rows ->].
  reflexivity.
Qed.

Section WithEnvironment.
Variable mac : string -> string -> string.
Variable tbl : list string -> list (list string) -> string.
Variable argv : list Dice.

(** A round that is answered with anything but a command. *)
Lemma fairThrow_answered (answer : string) (rest : list string) (range : Z)
    (player : string) (g g1 : Entropy) (c : Commitment) :
  (answer =? "x")%string = false -> (answer =? "X")%string = false ->
  (answer =? "?")%string = false ->
  generateRandom mac range g = Returned (c, g1) ->
  fairThrow mac tbl argv (answer :: rest) range player g
  = (transcript range c player (combine (randomValue c) answer range),
     Returns (combine (randomValue c) answer range, g1, rest)).
Proof.
  intros Hx HX Hq H. cbn [fairThrow]. rewrite H. destruct c as [v h k].
  rewrite Hx, HX, Hq. cbn [orb]. reflexivity.
Qed.

Lemma neq_eqb_false (s t : string) : s <> t -> (s =? t)%string = false.
Proof. apply String.eqb_neq. Qed.

(** The contribution of a player who answers with a number of the range. *)
Lemma combine_in_range (range v c : Z) (suffix : string) :
  1 <= range <= RAND_MAX -> 0 <= v < range -> 0 <= c < range ->
  no_digit_ahead suffix ->
  combine v (Js.toString (JInt c) ++ suffix) range = JInt ((v + c) mod range).
Proof.
  unfold RAND_MAX. intros Hr Hv Hc Hs. unfold combine.
  rewrite parseInt_toString
    by first [assumption | unfold MAX_SAFE_INTEGER; lia].
  rewrite round_to_double_safe by (unfold MAX_SAFE_INTEGER; lia).
  cbn [add]. rewrite round_to_double_safe by (unfold MAX_SAFE_INTEGER; lia).
  cbn [rem]. replace (range =? 0) with false by (symmetry; apply Z.eqb_neq; lia).
  now rewrite Z.rem_mod_nonneg by lia.
Qed.

(** C9. Fair-draw composition: for every [range >= 1], every value [v]
    that [generateRandom(range)] has committed to (it lies in [[0, range)])
    and every contribution [c] in [[0, range)] typed as its decimal digits,
    [fairThrow] publishes the digest, asks, reveals [v] with the key and
    returns [(v + c) mod range], which lies in [[0, range)]; for
    [range = 1] the result is 0 and the round runs through the same
    steps. *)
Theorem fair_draw (range v c : Z) (h k player : string)
    (rest : list string) (g g1 : Entropy) :
  1 <= range -> 0 <= c < range ->
  generateRandom mac range g = Returned (mkCommitment v h k, g1) ->
  let result := (v + c) mod range in
  0 <= v < range /\
  fairThrow mac tbl argv (Js.toString (JInt c) :: rest) range player g
  = (transcript range (mkCommitment v h k) player (JInt result),
     Returns (JInt result, g1, rest)) /\
  0 <= result < range /\
  (range = 1 -> result = 0).
Proof.
  intros Hr Hc H result.
  destruct (generateRandom_returned mac range g g1 _ H) as [Hrange Hv].
  cbn [randomValue] in Hv.
  split; [exact Hv|]. split.
  - rewrite (fairThrow_answered (Js.toString (JInt c)) rest range player g g1
               (mkCommitment v h k))
      by first [exact H
               | apply toString_not_command;
                 [unfold MAX_SAFE_INTEGER, RAND_MAX in *; lia | reflexivity]].
    cbn [randomValue].
    rewrite <- (append_empty (Js.toString (JInt c))).
    rewrite combine_in_range by (assumption || exact I). reflexivity.
  - split; [apply Z.mod_pos_bound; lia|].
    intros ->. apply Z.mod_1_r.
Qed.

(** C10. [fairThrow] never checks the answer against [[0, range)]: for
    every answer other than ["x"], ["X"] and ["?"] it returns
    [(randomValue + parseInt(answer, 10)) % range].  An answer with no
    number at its start is read as NaN, and then the round result is NaN,
    which is no index of any die: [roll] gives [undefined].  An answer
    made of the digits of [n] followed by anything that is not a digit
    counts as [n], whether or not [n] is below [range]. *)
Theorem fairThrow_takes_any_answer (answer : string) (rest : list string)
    (range v : Z) (h k player : string) (g g1 : Entropy) :
  answer <> "x" -> answer <> "X" -> answer <> "?" ->
  generateRandom mac range g = Returned (mkCommitment v h k, g1) ->
  let result := rem (add (JInt v) (parseInt answer)) (JInt range) in
  fairThrow mac tbl argv (answer :: rest) range player g
  = (transcript range (mkCommitment v h k) player result,
     Returns (result, g1, rest)) /\
  (no_number_ahead answer -> parseInt answer = JNaN) /\
  (parseInt answer = JNaN ->
   result = JNaN /\ forall d : Dice, roll d result = None) /\
  (forall n suffix,
      answer = Js.toString (JInt n) ++ suffix ->
      0 <= n <= MAX_SAFE_INTEGER -> no_digit_ahead suffix ->
      parseInt answer = JInt n /\
      result = rem (add (JInt v) (JInt n)) (JInt range)).
Proof.
  intros Hx HX Hq H result.
  split; [|split; [|split]].
  - rewrite (fairThrow_answered answer rest range player g g1
               (mkCommitment v h k))
      by (try apply neq_eqb_false; assumption).
    reflexivity.
  - intros Hn. destruct answer as [|c s]; [reflexivity|].
    destruct Hn as (W & M & P & D). apply parseInt_no_number; assumption.
  - intros E. subst result. rewrite E. split; reflexivity.
  - intros n suffix -> Hn Hs.
    assert (E : parseInt (Js.toString (JInt n) ++ suffix) = JInt n).
    { rewrite parseInt_toString by (lia || assumption).
      apply round_to_double_safe. lia. }
    subst result. rewrite E. split; reflexivity.
Qed.

(** X4. The commands of [fairThrow]: once the commitment is made, the
    answers ["x"] and ["X"] end the process with exit code 1, an input with
    no answer leaves the method waiting, and ["?"] prints the table, which
    never fails, and runs the round again on the rest of the input, with a
    new commitment drawn from entropy not read before. *)
Theorem fairThrow_commands (range : Z) (player : string)
    (rest : list string) (g g1 : Entropy) (c : Commitment) :
  generateRandom mac range g = Returned (c, g1) ->
  snd (fairThrow mac tbl argv ("x" :: rest) range player g) = Exits 1 /\
  snd (fairThrow mac tbl argv ("X" :: rest) range player g) = Exits 1 /\
  snd (fairThrow mac tbl argv [] range player g) = Awaits /\
  snd (showResults tbl argv) = Returned tt /\
  exists announce ask,
    fairThrow mac tbl argv ("?" :: rest) range player g
    = ((announce :: ask :: fst (showResults tbl argv))
         ++ fst (fairThrow mac tbl argv rest range player g1),
       snd (fairThrow mac tbl argv rest range player g1))%list.
Proof.
  intros H. destruct c as [v h k].
  split; [cbn [fairThrow]; rewrite H; reflexivity|].
  split; [cbn [fairThrow]; rewrite H; reflexivity|].
  split; [cbn [fairThrow]; rewrite H; reflexivity|].
  split; [apply showResults_returns|].
  cbn [fairThrow]. rewrite H.
  pose proof (showResults_returns tbl argv) as S.
  destruct (showResults tbl argv) as [shown r]. cbn [snd fst] in *. subst r.
  destruct (fairThrow mac tbl argv rest range player g1) as [later ending].
  eexists _, _. reflexivity.
Qed.

End WithEnvironment.

Lemma fair_draw_witness :
  fairThrow sample_mac sample_table sample_dice ["4"] 6 "user" sample_entropy
  = (transcript 6
       sample_commitment
       "user" (JInt 5),
     Returns (JInt 5, sample_entropy_after, [])).
Proof.
  destruct (fair_draw sample_mac sample_table sample_dice 6 1 4
              (hmac sample_commitment)
              sample_key
              "user" [] sample_entropy sample_entropy_after)
    as (_ & H & _).
  - lia.
  - lia.
  - vm_compute. reflexivity.
  - exact H.
Defined.

Lemma fairThrow_takes_any_answer_witness :
  fairThrow sample_mac sample_table sample_dice ["zz"] 6 "computer"
    sample_entropy
  = (transcript 6
       sample_commitment
       "computer" JNaN,
     Returns (JNaN, sample_entropy_after, [])) /\
  roll dieA (rem (add (JInt 1) (parseInt "zz")) (JInt 6)) = None.
Proof.
  destruct (fairThrow_takes_any_answer sample_mac sample_table sample_dice
              "zz" [] 6 1
              (hmac sample_commitment)
              sample_key
              "computer" sample_entropy sample_entropy_after)
    as (H & N & U & _).
  - discriminate.
  - discriminate.
  - discriminate.
  - vm_compute. reflexivity.
  - split; [exact H|].
    assert (E : parseInt "zz" = JNaN) by (vm_compute; reflexivity).
    destruct (U E) as [_ R]. exact (R dieA).
Defined.

(** A throw answered with ["zz"]: the round result is NaN, the computer's
    face is [undefined], and the verdict is a draw. *)
Example performThrow_undefined_face :
  fst (performThrow sample_mac sample_table sample_dice ["zz"; "1"]
         dieA dieB sample_entropy)
  = (ConsoleLog [LStr (nl ++ "It's time for the throws!")]
     :: transcript 6
          sample_commitment
          "computer" JNaN
     ++ transcript 6
          second_commitment
          "user" (JInt 5)
     ++ [ConsoleLog [LStr (nl ++ "My throw is undefined.")];
         ConsoleLog [LStr "Your throw is 9."];
         ConsoleLog [LStr "It's a draw!"]])%list.
Proof. vm_compute. reflexivity. Qed.
Lemma fairThrow_commands_witness :
  snd (fairThrow sample_mac sample_table sample_dice ["x"] 6 "user"
         sample_entropy) = Exits 1 /\
  snd (fairThrow sample_mac sample_table sample_dice ["?"; "2"] 6 "user"
         sample_entropy)
  = Returns (JInt 0, mkEntropy (tape sample_entropy) 66, []).
Proof.
  destruct (fairThrow_commands sample_mac sample_table sample_dice 6 "user"
              ["2"] sample_entropy sample_entropy_after
              sample_commitment)
    as (_ & _ & _ & _ & a & q & E).
  - vm_compute. reflexivity.
  - split; [vm_compute; reflexivity|].
    rewrite E. vm_compute. reflexivity.
Defined.
End FairThrow.

Module TextFacts.
Import Js JsText JsNumber Reference CommandLine DigitFacts.

Lemma split_free (sep : ascii) (s : string) :
  free_of sep s = true -> split sep s = [s].
Proof.
  induction s as [|a s IH]; cbn [free_of split]; intros H; [reflexivity|].
  apply andb_true_iff in H. destruct H as [Ha Hs].
  apply negb_true_iff in Ha. rewrite Ha, IH by exact Hs. reflexivity.
Qed.

Lemma split_app (sep : ascii) (s rest : string) :
  free_of sep s = true ->
  split sep (s ++ String sep rest) = s :: split sep rest.
Proof.
  induction s as [|a s IH]; cbn [free_of append split]; intros H.
  - now rewrite Ascii.eqb_refl.
  - apply andb_true_iff in H. destruct H as [Ha Hs].
    apply negb_true_iff in Ha. rewrite Ha, IH by exact Hs. reflexivity.
Qed.

(** Splitting what [join] put together gives the pieces back. *)
Lemma split_join (sep : ascii) (l : list string) :
  l <> [] -> Forall (fun s => free_of sep s = true) l ->
  split sep (join (String sep "") l) = l.
Proof.
  induction l as [|s l IH]; intros Hne Hall; [contradiction|].
  inversion Hall as [|? ? Hs Hl]; subst.
  destruct l as [|s' l].
  - cbn [join]. now apply split_free.
  - change (join (String sep "") (s :: s' :: l))
      with (s ++ String sep (join (String sep "") (s' :: l)))%string.
    rewrite split_app by exact Hs. f_equal. apply IH; [discriminate | exact Hl].
Qed.

Lemma split_nonempty (sep : ascii) (s : string) : split sep s <> [].
Proof.
  destruct s as [|a s]; cbn [split]; [discriminate|].
  destruct (Ascii.eqb a sep); [discriminate|].
  destruct (split sep s); discriminate.
Qed.

(** Joining the pieces of a string gives the string back. *)
Lemma join_split (sep : ascii) (s : string) :
  join (String sep "") (split sep s) = s.
Proof.
  induction s as [|a s IH]; [reflexivity|]. cbn [split].
  destruct (Ascii.eqb_spec a sep) as [-> | Hne].
  - pose proof (split_nonempty sep s) as N.
    destruct (split sep s) as [|p ps] eqn:E; [contradiction|].
    change (join (String sep "") ("" :: p :: ps))
      with (String sep (join (String sep "") (p :: ps))).
    now rewrite IH.
  - pose proof (split_nonempty sep s) as N.
    destruct (split sep s) as [|p ps] eqn:E; [contradiction|].
    rewrite <- IH. destruct ps; reflexivity.
Qed.

Lemma skip_no_white_space (s : string) :
  match s with
  | String c _ => is_white_space c = false
  | EmptyString => True
  end -> skip_white_space s = s.
Proof. destruct s as [|c s]; cbn [skip_white_space]; [reflexivity|]. now intros ->. Qed.

(** A blank string stays blank without its first blanks, and is nothing
    without its last ones. *)
Lemma trim_blank (s : string) :
  all_white_space s = true -> trim_end (skip_white_space s) = "".
Proof.
  induction s as [|c s IH]; cbn [all_white_space skip_white_space];
    intros H; [reflexivity|].
  apply andb_true_iff in H. destruct H as [Hc Hs]. rewrite Hc. now apply IH.
Qed.

Lemma trim_end_digits (s : string) :
  all_digits s = true -> trim_end s = s.
Proof.
  induction s as [|c s IH]; cbn [all_digits trim_end]; intros H; [reflexivity|].
  apply andb_true_iff in H. destruct H as [Hc Hs]. rewrite IH by exact Hs.
  destruct s; [|reflexivity].
  destruct c as [[] [] [] [] [] [] [] []];
    try (vm_compute in Hc; discriminate Hc); reflexivity.
Qed.

Lemma all_digits_uint (d : Decimal.uint) :
  all_digits (NilEmpty.string_of_uint d) = true.
Proof. induction d; cbn [NilEmpty.string_of_uint all_digits]; try reflexivity; exact IHd. Qed.

Lemma read_digits_all (s : string) :
  all_digits s = true ->
  forall acc len,
    exists n, read_digits s acc len = (n, (len + String.length s)%nat, "").
Proof.
  induction s as [|c s IH]; cbn [all_digits read_digits String.length];
    intros H acc len.
  - exists acc. now rewrite Nat.add_0_r.
  - apply andb_true_iff in H. destruct H as [Hc Hs].
    destruct (digit_of_ascii c) as [v|]; [|discriminate].
    destruct (IH Hs (10 * acc + v) (S len)) as [n ->].
    exists n. f_equal. f_equal. lia.
Qed.

Lemma read_digits_uint (d : Decimal.uint) :
  forall acc len,
    read_digits (NilEmpty.string_of_uint d) acc len
    = (uint_val d acc, (len + String.length (NilEmpty.string_of_uint d))%nat, "").
Proof.
  induction d; intros acc len;
    cbn [NilEmpty.string_of_uint read_digits uint_val String.length];
    try (now rewrite Nat.add_0_r);
    eval_digit; rewrite IHd; f_equal; f_equal; lia.
Qed.

(** The digits of an integer: a minus sign when it is negative, then the
    digits of its absolute value, of which there is at least one. *)
Lemma integer_digits_shape (z : Z) :
  exists d : Decimal.uint,
    d <> Decimal.Nil /\ uint_val d 0 = Z.abs z /\
    integer_digits z
    = if z <? 0 then String "-" (NilEmpty.string_of_uint d)
      else NilEmpty.string_of_uint d.
Proof.
  destruct z as [|p|p].
  - exists (Decimal.D0 Decimal.Nil). repeat split. discriminate.
  - destruct (integer_digits_natural (Z.pos p) ltac:(lia))
      as (d & Hd & E & V).
    exists d. repeat split; assumption.
  - destruct (integer_digits_natural (Z.pos p) ltac:(lia))
      as (d & Hd & E & V).
    exists d. split; [exact Hd|]. split; [exact V|].
    unfold integer_digits in *.
    cbn [Z.to_int NilZero.string_of_int Z.ltb Z.compare].
    cbn [Z.to_int NilZero.string_of_int] in E.
    now rewrite E.
Qed.

(** The text of a safe integer is these digits. *)
Lemma toString_shape (z : Z) :
  Z.abs z <= MAX_SAFE_INTEGER ->
  exists d : Decimal.uint,
    d <> Decimal.Nil /\ uint_val d 0 = Z.abs z /\
    Js.toString (JInt z)
    = if z <? 0 then String "-" (NilEmpty.string_of_uint d)
      else NilEmpty.string_of_uint d.
Proof.
  intros H. rewrite toString_safe by exact H. apply integer_digits_shape.
Qed.

Lemma strip_prefix_digits (a b c : ascii) (rest : string) :
  digit_of_ascii b = None -> all_digits rest = true ->
  strip_prefix (String a (String b "")) (String c rest) = None.
Proof.
  intros Hb Hr. cbn [strip_prefix]. destruct (Ascii.eqb a c); [|reflexivity].
  destruct rest as [|c' rest]; [reflexivity|].
  cbn [all_digits] in Hr. apply andb_true_iff in Hr. destruct Hr as [Hc _].
  destruct (Ascii.eqb_spec b c') as [<- | _]; [|reflexivity].
  now rewrite Hb in Hc.
Qed.

Lemma uint_string_cons (d : Decimal.uint) :
  d <> Decimal.Nil ->
  exists c rest,
    NilEmpty.string_of_uint d = String c rest /\
    digit_of_ascii c <> None /\ all_digits rest = true.
Proof.
  intros H. destruct d; try contradiction;
    cbn [NilEmpty.string_of_uint]; eexists _, _;
    (split; [reflexivity | split; [vm_compute; discriminate
                                  | apply all_digits_uint]]).
Qed.

Lemma round_rational_integer (negative : bool) (n : Z) :
  round_rational negative (n * 10 ^ 0) 1
  = Whole (round_to_double (if negative then - n else n)).
Proof.
  unfold round_rational. rewrite Z.pow_0_r, Z.mul_1_r, Z.mod_1_r, Z.div_1_r.
  reflexivity.
Qed.

(** A decimal literal that is a sign and digits is the number they
    denote. *)
Lemma read_decimal_digits (t : string) (negative : bool) (c : ascii)
    (rest : string) (n : Z) (len : nat) :
  read_sign t = (negative, String c rest) ->
  digit_of_ascii c <> None ->
  read_digits (String c rest) 0 O = (n, S len, "") ->
  read_decimal t = Whole (round_to_double (if negative then - n else n)).
Proof.
  intros S Hc E. unfold read_decimal. rewrite S.
  assert (I : (String c rest =? "Infinity")%string = false).
  { destruct c as [[] [] [] [] [] [] [] []];
      try (exfalso; apply Hc; vm_compute; reflexivity); reflexivity. }
  rewrite I, E. cbn [Nat.add read_exponent Z.of_nat].
  rewrite Z.sub_0_r. cbn [Z.leb Z.compare].
  now rewrite round_rational_integer.
Qed.

Lemma read_sign_digit (c : ascii) (rest : string) :
  digit_of_ascii c <> None ->
  read_sign (String c rest) = (false, String c rest).
Proof.
  intros Hc.
  destruct c as [[] [] [] [] [] [] [] []];
    try (exfalso; apply Hc; vm_compute; reflexivity); reflexivity.
Qed.

Lemma digit_not_white_space (c : ascii) :
  digit_of_ascii c <> None -> is_white_space c = false.
Proof.
  intros Hc.
  destruct c as [[] [] [] [] [] [] [] []];
    try (exfalso; apply Hc; vm_compute; reflexivity); reflexivity.
Qed.

Lemma trim_end_cons (a c : ascii) (rest : string) :
  trim_end (String c rest) = String c rest ->
  trim_end (String a (String c rest)) = String a (String c rest).
Proof.
  intros H. change (trim_end (String a (String c rest)))
    with (match trim_end (String c rest) with
          | EmptyString => if is_white_space a then EmptyString else String a ""
          | kept => String a kept
          end).
  now rewrite H.
Qed.

(** [Number] reads the text of a safe integer back. *)
Lemma StringToNumber_toString (z : Z) :
  Z.abs z <= MAX_SAFE_INTEGER ->
  StringToNumber (Js.toString (JInt z)) = Whole (round_to_double z).
Proof.
  intros S.
  destruct (toString_shape z S) as (d & Hd & V & ->).
  destruct (uint_string_cons d Hd) as (c & rest & E & Hc & Hr).
  pose proof (read_digits_uint d 0 O) as R. rewrite V, E in R.
  cbn [String.length Nat.add] in R.
  pose proof (trim_end_digits (String c rest)) as T.
  rewrite <- E, all_digits_uint, E in T. specialize (T eq_refl).
  rewrite E. unfold StringToNumber.
  destruct (z <? 0) eqn:L.
  - cbn [skip_white_space]. replace (is_white_space "-") with false by reflexivity.
    rewrite (trim_end_cons "-" c rest T).
    change (strip_prefix "0x" (String "-" (String c rest))) with (@None string).
    change (strip_prefix "0X" (String "-" (String c rest))) with (@None string).
    change (strip_prefix "0o" (String "-" (String c rest))) with (@None string).
    change (strip_prefix "0O" (String "-" (String c rest))) with (@None string).
    change (strip_prefix "0b" (String "-" (String c rest))) with (@None string).
    change (strip_prefix "0B" (String "-" (String c rest))) with (@None string).
    rewrite (read_decimal_digits (String "-" (String c rest)) true c rest
               (Z.abs z) _ eq_refl Hc R).
    f_equal. f_equal. apply Z.ltb_lt in L. lia.
  - cbn [skip_white_space]. rewrite (digit_not_white_space c Hc), T.
    rewrite !strip_prefix_digits by (reflexivity || exact Hr).
    rewrite (read_decimal_digits _ false c rest (Z.abs z) _
               (read_sign_digit c rest Hc) Hc R).
    f_equal. f_equal. apply Z.ltb_ge in L. lia.
Qed.

Lemma StringToNumber_safe (z : Z) :
  Z.abs z <= MAX_SAFE_INTEGER ->
  StringToNumber (Js.toString (JInt z)) = Whole (JInt z).
Proof.
  intros H.
  now rewrite StringToNumber_toString, round_to_double_safe by exact H.
Qed.

(** A blank field is the number 0. *)
Lemma StringToNumber_blank (s : string) :
  all_white_space s = true -> StringToNumber s = Whole (JInt 0).
Proof. intros H. unfold StringToNumber. now rewrite trim_blank. Qed.

Lemma toString_free_of_comma (z : Z) :
  Z.abs z <= MAX_SAFE_INTEGER ->
  free_of "," (Js.toString (JInt z)) = true.
Proof.
  intros S.
  destruct (toString_shape z S) as (d & _ & _ & ->).
  assert (F : forall s, all_digits s = true -> free_of "," s = true).
  { induction s as [|c s IH]; cbn [all_digits free_of]; intros H; [reflexivity|].
    apply andb_true_iff in H. destruct H as [Hc Hs]. rewrite IH by exact Hs.
    destruct (Ascii.eqb_spec c ",") as [-> | _]; [discriminate Hc | reflexivity]. }
  destruct (z <? 0); [cbn [free_of]; rewrite F|rewrite F];
    try reflexivity; apply all_digits_uint.
Qed.
End TextFacts.

Module InputFacts.
Import Js JsText JsNumber DiceInput Reference CommandLine DigitFacts TextFacts.

Lemma map_outcome_all {A B : Type} (f : A -> Outcome B) (g : A -> B)
    (l : list A) :
  Forall (fun a => f a = Returned (g a)) l ->
  map_outcome f l = Returned (map g l).
Proof.
  induction 1 as [|a l Ha _ IH]; [reflexivity|].
  cbn [map_outcome map]. rewrite Ha. cbn [bind]. rewrite IH. reflexivity.
Qed.

Lemma map_outcome_fails {A B : Type} (f : A -> Outcome B) (e : Exception)
    (l : list A) :
  Forall (fun a => f a = Threw e \/ exists b, f a = Returned b) l ->
  Exists (fun a => f a = Threw e) l ->
  map_outcome f l = Threw e.
Proof.
  induction l as [|a l IH]; intros Hall Hex; [inversion Hex|].
  inversion Hall as [|? ? Ha Hl]; subst. cbn [map_outcome].
  destruct Ha as [Ha | [b Ha]]; rewrite Ha; [reflexivity|]. cbn [bind].
  inversion Hex as [? ? Hf | ? ? Hl']; subst.
  - rewrite Hf in Ha. discriminate Ha.
  - rewrite IH by assumption. reflexivity.
Qed.

(** [new Dice] on the fields of an argument. *)
Lemma parseDice_outcome (arg : string) :
  parseDice arg
  = if acceptable arg then Returned (dice_of arg)
    else Threw (Error not_six).
Proof.
  unfold parseDice, construct, acceptable, dice_of. rewrite length_map.
  destruct (List.length (split "," arg) =? 6)%nat; cbn [negb orb andb];
    [|reflexivity].
  destruct (forallb isInteger (map StringToNumber (split "," arg)));
    reflexivity.
Qed.

(** What [parseDiceConfigs] answers, by the arguments. *)
Lemma parseDiceConfigs_outcome (args : list string) :
  parseDiceConfigs args
  = if (List.length args <? 3)%nat then Threw (Error too_few)
    else if forallb acceptable args then Returned (map dice_of args)
    else Threw (Error not_six).
Proof.
  unfold parseDiceConfigs. destruct (List.length args <? 3)%nat; [reflexivity|].
  destruct (forallb acceptable args) eqn:E.
  - apply map_outcome_all. rewrite forallb_forall in E. apply Forall_forall.
    intros arg Harg. now rewrite parseDice_outcome, (E arg Harg).
  - apply map_outcome_fails.
    + apply Forall_forall. intros arg _. rewrite parseDice_outcome.
      destruct (acceptable arg); [right; eexists; reflexivity | now left].
    + apply Exists_exists.
      assert (X : exists arg, In arg args /\ acceptable arg = false).
      { clear -E. induction args as [|a l IH]; [discriminate|].
        cbn [forallb] in E. apply andb_false_iff in E. destruct E as [E | E].
        - exists a. split; [now left | exact E].
        - destruct (IH E) as (arg & Hin & Ha). exists arg. split; [now right | exact Ha]. }
      destruct X as (arg & Hin & Ha). exists arg. split; [exact Hin|].
      now rewrite parseDice_outcome, Ha.
Qed.

Lemma dice_of_six (arg : string) :
  acceptable arg = true -> Dice.six_faces (dice_of arg).
Proof.
  unfold acceptable, dice_of, Dice.six_faces. intros H.
  apply andb_true_iff in H. destruct H as [H _]. apply Nat.eqb_eq in H.
  cbn [Dice.faces]. now rewrite !length_map.
Qed.

(** X5. What [parseDiceConfigs] returns is a dice set: whenever it
    returns, there are as many dice as arguments, at least three of them,
    and every die has exactly six faces. *)
Theorem parseDiceConfigs_invariant (args : list string)
    (diceSet : list Dice.Dice) :
  parseDiceConfigs args = Returned diceSet ->
  List.length diceSet = List.length args /\
  (3 <= List.length diceSet)%nat /\
  Forall Dice.six_faces diceSet.
Proof.
  rewrite parseDiceConfigs_outcome.
  destruct (Nat.ltb_spec (List.length args) 3) as [|L]; [discriminate|].
  destruct (forallb acceptable args) eqn:E; [|discriminate].
  intros H. injection H as <-. rewrite length_map.
  split; [reflexivity|]. split; [exact L|].
  apply Forall_forall. intros d Hd. apply in_map_iff in Hd.
  destruct Hd as (arg & <- & Harg). apply dice_of_six.
  rewrite forallb_forall in E. now apply E.
Qed.

Lemma parseDiceConfigs_invariant_witness :
  List.length sample_dice = 3%nat /\ Forall Dice.six_faces sample_dice.
Proof.
  destruct (parseDiceConfigs_invariant
              ["2,2,4,4,9,9"; "6,8,1,1,8,6"; "7,5,3,7,5,3"] sample_dice)
    as (L & _ & F).
  - vm_compute. reflexivity.
  - split; [exact L | exact F].
Defined.

Lemma config_fields (d : Dice.Dice) :
  six_safe_faces d ->
  map StringToNumber (split "," (config_of d))
  = map (fun f => Whole (JInt f)) (Dice.faces d).
Proof.
  intros [L S]. unfold config_of. rewrite split_join.
  - rewrite map_map. apply map_ext_in. intros f Hf.
    apply StringToNumber_safe. rewrite Forall_forall in S. now apply S.
  - destruct (Dice.faces d); [discriminate L | discriminate].
  - apply Forall_forall. intros s Hs. apply in_map_iff in Hs.
    destruct Hs as (f & <- & Hf). apply toString_free_of_comma.
    rewrite Forall_forall in S. now apply S.
Qed.

Lemma config_acceptable (d : Dice.Dice) :
  six_safe_faces d ->
  acceptable (config_of d) = true /\ dice_of (config_of d) = d.
Proof.
  intros H. pose proof (config_fields d H) as F. destruct H as [L S].
  unfold acceptable, dice_of. rewrite F.
  assert (N : List.length (split "," (config_of d)) = 6%nat).
  { rewrite <- (length_map StringToNumber), F, length_map. exact L. }
  rewrite N. split.
  - cbn [Nat.eqb andb]. apply forallb_forall. intros x Hx.
    apply in_map_iff in Hx. destruct Hx as (f & <- & _). reflexivity.
  - rewrite map_map. cbn [integer_of]. rewrite map_id. now destruct d.
Qed.

(** X6. Round trip: a set of at least three dice, each of six faces that
    are safe integers, written as the command line writes dice (the faces
    with commas between them) is parsed back to the same set; and a die
    prints as that text between square brackets. *)
Theorem parseDiceConfigs_reads_back (diceSet : list Dice.Dice) :
  (3 <= List.length diceSet)%nat ->
  Forall six_safe_faces diceSet ->
  parseDiceConfigs (map config_of diceSet) = Returned diceSet /\
  (forall d, In d diceSet -> Dice.toString d = "[" ++ config_of d ++ "]").
Proof.
  intros L S. split; [|reflexivity].
  rewrite parseDiceConfigs_outcome, length_map.
  destruct (Nat.ltb_spec (List.length diceSet) 3) as [|_]; [lia|].
  rewrite Forall_forall in S.
  replace (forallb acceptable (map config_of diceSet)) with true.
  - f_equal. rewrite map_map. rewrite <- (map_id diceSet) at 2.
    apply map_ext_in. intros d Hd. now apply config_acceptable, S.
  - symmetry. apply forallb_forall. intros arg Harg.
    apply in_map_iff in Harg. destruct Harg as (d & <- & Hd).
    now apply config_acceptable, S.
Qed.

Lemma parseDiceConfigs_reads_back_witness :
  parseDiceConfigs (map config_of sample_dice) = Returned sample_dice.
Proof.
  destruct (parseDiceConfigs_reads_back sample_dice) as [H _].
  - simpl; lia.
  - repeat constructor; cbn [Dice.faces]; unfold MAX_SAFE_INTEGER; simpl; lia.
  - exact H.
Defined.

Lemma blank_free_of_comma (s : string) :
  all_white_space s = true -> free_of "," s = true.
Proof.
  induction s as [|c s IH]; cbn [all_white_space free_of]; intros H; [reflexivity|].
  apply andb_true_iff in H. destruct H as [Hc Hs]. rewrite IH by exact Hs.
  destruct (Ascii.eqb_spec c ",") as [-> | _]; [discriminate Hc | reflexivity].
Qed.

(** X7. A blank last field is the face 0: [Number] of an empty or blank
    string is 0, so an argument of five integer fields and a sixth that is
    empty or white space (a trailing comma) is accepted, as the die with
    0 for its sixth face. *)
Theorem blank_field_is_face_zero (fields : list string) (blank : string) :
  List.length fields = 5%nat ->
  Forall (fun f => free_of "," f = true /\ isInteger (StringToNumber f) = true)
    fields ->
  all_white_space blank = true ->
  parseDice (join "," (fields ++ [blank]))
  = Returned
      (Dice.mkDice
         (map (fun f => integer_of (StringToNumber f)) fields ++ [0])).
Proof.
  intros L F B. rewrite parseDice_outcome.
  assert (S : split "," (join "," (fields ++ [blank])) = (fields ++ [blank])%list).
  { apply split_join; [destruct fields; discriminate|].
    apply Forall_app. split.
    - apply Forall_forall. intros f Hf. rewrite Forall_forall in F. now apply F.
    - constructor; [now apply blank_free_of_comma | constructor]. }
  unfold acceptable, dice_of. rewrite S, length_app, L.
  cbn [List.length Nat.add Nat.eqb andb]. rewrite !map_app. cbn [map].
  rewrite (StringToNumber_blank blank B). rewrite forallb_app.
  replace (forallb isInteger (map StringToNumber fields)) with true.
  - cbn [forallb isInteger andb integer_of]. now rewrite map_map.
  - symmetry. apply forallb_forall. intros x Hx. apply in_map_iff in Hx.
    destruct Hx as (f & <- & Hf). rewrite Forall_forall in F. now apply F.
Qed.

Lemma blank_field_is_face_zero_witness :
  parseDice "1,2,3,4,5, " = Returned (Dice.mkDice [1; 2; 3; 4; 5; 0]).
Proof.
  apply (blank_field_is_face_zero ["1"; "2"; "3"; "4"; "5"] " ").
  - reflexivity.
  - repeat constructor.
  - reflexivity.
Defined.
End InputFacts.

Module OddsFacts.
Import Js Crypto FairRandomGenerator Dice ProbabilityCalculator Reference.
Import CountFacts Odds CommitReveal.

Lemma sumZ_perm (f : Z -> Z) (l l' : list Z) :
  Permutation l l' -> sumZ f l = sumZ f l'.
Proof. induction 1; cbn [sumZ]; lia. Qed.

Lemma count_wins_perm (a a' b b' : list Z) :
  Permutation a a' -> Permutation b b' ->
  count_wins a b = count_wins a' b'.
Proof.
  intros Pa Pb. rewrite !count_wins_sum, (sumZ_perm _ a a' Pa).
  apply sumZ_ext. intros x _. now apply sumZ_perm.
Qed.

(** X8. The probability depends on the faces of the two dice and not on
    the order they are written in: reordering either die leaves
    [calculateProbability] unchanged. *)
Theorem calculateProbability_ignores_order
    (diceA diceA' diceB diceB' : list Z) :
  Permutation diceA diceA' -> Permutation diceB diceB' ->
  calculateProbability diceA diceB = calculateProbability diceA' diceB'.
Proof.
  intros Pa Pb. rewrite !calculateProbability_of_count.
  now rewrite (count_wins_perm diceA diceA' diceB diceB').
Qed.

Lemma calculateProbability_ignores_order_witness :
  calculateProbability [2; 2; 4; 4; 9; 9] [6; 8; 1; 1; 8; 6]
  = calculateProbability [2; 4; 2; 4; 9; 9] [8; 6; 1; 1; 8; 6].
Proof.
  apply calculateProbability_ignores_order.
  - apply perm_skip, perm_swap.
  - apply perm_swap.
Defined.

Lemma sumZ_le (f g : Z -> Z) (l : list Z) :
  (forall x, In x l -> f x <= g x) -> sumZ f l <= sumZ g l.
Proof.
  induction l as [|x l IH]; cbn [sumZ]; intros H; [lia|].
  pose proof (H x (or_introl eq_refl)).
  assert (sumZ f l <= sumZ g l) by (apply IH; intros; apply H; now right). lia.
Qed.

Lemma ties_with_itself (x : Z) (l : list Z) :
  In x l -> 1 <= sumZ (fun y => ind (x =? y)) l.
Proof.
  induction l as [|y l IH]; cbn [sumZ]; intros H; [contradiction|].
  assert (0 <= sumZ (fun y => ind (x =? y)) l)
    by (apply sumZ_nonneg; intros; apply ind_nonneg).
  destruct H as [-> | H].
  - rewrite Z.eqb_refl. cbn [ind]. lia.
  - specialize (IH H). pose proof (ind_nonneg (x =? y)). lia.
Qed.

Lemma three_pairs_count (a b c : Z) :
  a <> b -> b <> c -> a <> c ->
  count_wins [a; a; b; b; c; c] [a; a; b; b; c; c] = 12.
Proof.
  intros Hab Hbc Hac. rewrite count_wins_sum. cbn [sumZ].
  rewrite !Z.ltb_irrefl.
  destruct (Z.ltb_spec a b), (Z.ltb_spec b a), (Z.ltb_spec a c),
    (Z.ltb_spec c a), (Z.ltb_spec b c), (Z.ltb_spec c b);
    try lia; reflexivity.
Qed.

(** X9. A die of six faces against itself: twice the count of winning
    pairs plus the ties is 36 and there are at least 6 ties, so the count
    is at most 15 of 36; for a die made of three distinct values, each
    twice, the count is 12 and the probability prints as [0.3333], the
    value the diagonal label shows for every die. *)
Theorem die_against_itself (d : list Z) :
  List.length d = 6%nat ->
  2 * count_wins d d + ties d d = 36 /\
  6 <= ties d d /\
  count_wins d d <= 15 /\
  (forall a b c,
      a <> b -> b <> c -> a <> c -> Permutation d [a; a; b; b; c; c] ->
      count_wins d d = 12 /\
      toFixed4 (calculateProbability d d) = "0.3333").
Proof.
  intros L. pose proof (wins_and_ties d d) as W. rewrite L in W.
  assert (T : 6 <= ties d d).
  { unfold ties. replace 6 with (sumZ (fun _ => 1) d)
      by (rewrite sumZ_const, L; reflexivity).
    apply sumZ_le. intros x Hx. now apply ties_with_itself. }
  split; [lia|]. split; [exact T|]. split; [lia|].
  intros a b c Hab Hbc Hac P.
  assert (C : count_wins d d = 12).
  { rewrite (count_wins_perm d _ d _ P P). now apply three_pairs_count. }
  split; [exact C|].
  rewrite calculateProbability_of_count, C. vm_compute. reflexivity.
Qed.

Lemma die_against_itself_witness :
  count_wins [2; 2; 4; 4; 9; 9] [2; 2; 4; 4; 9; 9] = 12 /\
  toFixed4 (calculateProbability [2; 2; 4; 4; 9; 9] [2; 2; 4; 4; 9; 9])
  = "0.3333".
Proof.
  destruct (die_against_itself [2; 2; 4; 4; 9; 9] eq_refl) as (_ & _ & _ & H).
  apply (H 2 4 9); try discriminate. apply Permutation_refl.
Defined.

Lemma hex_digit_lower (n : Z) :
  0 <= n < 16 -> is_lower_hex (hex_digit n) = true.
Proof.
  intros H.
  assert (E : In n (map Z.of_nat (seq 0 16))).
  { replace n with (Z.of_nat (Z.to_nat n)) by lia. apply in_map, in_seq. lia. }
  cbv [seq map] in E. simpl Z.of_nat in E.
  repeat (destruct E as [<- | E]; [reflexivity|]). destruct E.
Qed.

Lemma hex_shape (bytes : list Z) :
  Forall (fun b => 0 <= b < 256) bytes ->
  String.length (hex bytes) = (2 * List.length bytes)%nat /\
  forallb is_lower_hex (list_ascii_of_string (hex bytes)) = true.
Proof.
  induction 1 as [|b bytes Hb _ [IHl IHf]]; [split; reflexivity|].
  cbn [hex String.length list_ascii_of_string forallb List.length].
  split; [lia|].
  rewrite !hex_digit_lower, IHf; [reflexivity| |].
  - apply Z.mod_pos_bound. lia.
  - split; [apply Z.div_pos; lia | apply Z.div_lt_upper_bound; lia].
Qed.

Lemma read_bytes_are_bytes (g : Entropy) (n : nat) :
  List.length (read_bytes g n) = n /\
  Forall (fun b => 0 <= b < 256) (read_bytes g n).
Proof.
  unfold read_bytes. split; [now rewrite length_map, length_seq|].
  apply Forall_forall. intros b Hb. apply in_map_iff in Hb.
  destruct Hb as (i & <- & _). apply Z.mod_pos_bound. lia.
Qed.

(** X10. The key of every commitment [generateRandom] returns is 64
    lowercase hexadecimal digits, the 32 bytes read. *)
Theorem generated_key_is_well_formed (mac : string -> string -> string)
    (range : Z) (g g' : Entropy) (c : Commitment) :
  generateRandom mac range g = Returned (c, g') ->
  well_formed (key c) = true /\ String.length (key c) = 64%nat.
Proof.
  intros H.
  destruct (generateRandom_returned mac range g g' c H) as [Hr _].
  rewrite generateRandom_succeeds in H by exact Hr.
  assert (K : key c = hex (read_bytes g 32)).
  { cbv zeta in H. set (k := hex (read_bytes g 32)) in *.
    assert (E : forall c1 c2 : Commitment * Entropy,
               Returned c1 = Returned c2 -> key (fst c1) = key (fst c2))
      by (intros ? ? X; now injection X as ->).
    symmetry. apply (E _ _ H). }
  rewrite K.
  destruct (read_bytes_are_bytes g 32) as [L F].
  destruct (hex_shape _ F) as [HL HF]. rewrite L in HL.
  unfold well_formed. rewrite HL, HF. split; reflexivity.
Qed.

Lemma generated_key_is_well_formed_witness :
  well_formed sample_key = true /\ String.length sample_key = 64%nat.
Proof.
  apply (generated_key_is_well_formed sample_mac 6 sample_entropy
           sample_entropy_after sample_commitment).
  vm_compute. reflexivity.
Defined.
End OddsFacts.

Module LayoutFacts.
Import Js JsText Dice Reference CommandLine Layout.
Import LoopFacts DigitFacts TextFacts.

Lemma length_append (s t : string) :
  String.length (s ++ t) = (String.length s + String.length t)%nat.
Proof.
  induction s as [|c s IH]; cbn [append String.length Nat.add];
    [reflexivity | now rewrite IH].
Qed.

Lemma length_spaces (n : nat) : String.length (spaces n) = n.
Proof. induction n as [|n IH]; cbn [spaces String.length]; congruence. Qed.

Lemma length_padEnd (n : nat) (s : string) :
  String.length (padEnd n s) = Nat.max n (String.length s).
Proof. unfold padEnd. rewrite length_append, length_spaces. lia. Qed.


Lemma length_join_nothing (l : list string) :
  String.length (join "" l) = list_sum (map String.length l).
Proof.
  induction l as [|s l IH]; [reflexivity|].
  destruct l as [|s' l].
  - cbn [join map list_sum fold_right]. lia.
  - change (join "" (s :: s' :: l)) with (s ++ "" ++ join "" (s' :: l)).
    rewrite !length_append, IH. cbn [map list_sum fold_right String.length]. lia.
Qed.

Lemma length_join_comma (l : list string) :
  Forall (fun s => (1 <= String.length s)%nat) l ->
  (2 * List.length l <= String.length (join "," l) + 1)%nat.
Proof.
  induction 1 as [|s l Hs Hl IH]; [cbn; lia|].
  destruct l as [|s' l].
  - cbn [join List.length]. lia.
  - change (join "," (s :: s' :: l)) with (s ++ "," ++ join "," (s' :: l)).
    rewrite !length_append. cbn [String.length] in *.
    cbn [List.length] in *. lia.
Qed.

Lemma integer_digits_nonempty (z : Z) :
  (1 <= String.length (integer_digits z))%nat.
Proof.
  destruct (integer_digits_shape z) as (d & Hd & _ & ->).
  destruct (uint_string_cons d Hd) as (c & rest & -> & _).
  destruct (z <? 0); cbn [String.length]; lia.
Qed.

Lemma large_digits_nonempty (a : Z) :
  (1 <= String.length (large_digits a))%nat.
Proof.
  unfold large_digits. cbv zeta.
  set (c := shortest _ _ _ _). clearbody c.
  pose proof (integer_digits_nonempty c) as N.
  destruct (Z.of_nat (String.length (integer_digits c)) <=? 21); [exact N|].
  destruct (integer_digits c) as [|d rest]; [exact N|].
  cbn [append String.length]. lia.
Qed.

(** Whatever the integer, its text has a character. *)
Lemma toString_nonempty (z : Z) :
  (1 <= String.length (Js.toString (JInt z)))%nat.
Proof.
  cbn [Js.toString].
  destruct (Z.abs z <=? MAX_SAFE_INTEGER); [apply integer_digits_nonempty|].
  rewrite length_append. pose proof (large_digits_nonempty (Z.abs z)). lia.
Qed.

(** The text of a six-faced die has at least 13 characters. *)
Lemma length_dice_text (d : Dice) :
  six_faces d -> (13 <= String.length (Dice.toString d))%nat.
Proof.
  unfold six_faces, Dice.toString. intros L.
  pose proof (length_join_comma
                (map (fun f => Js.toString (JInt f)) (faces d))) as J.
  rewrite length_map, L in J.
  rewrite length_append. cbn [String.length].
  rewrite length_append. cbn [String.length].
  assert (2 * 6 <= String.length
                      (join "," (map (fun f => Js.toString (JInt f)) (faces d)))
                    + 1)%nat.
  { apply J. apply Forall_forall. intros s Hs. apply in_map_iff in Hs.
    destruct Hs as (f & <- & _). apply toString_nonempty. }
  lia.
Qed.

Lemma list_sum_at_least {A : Type} (f : A -> nat) (k : nat) (l : list A) :
  Forall (fun a => (k <= f a)%nat) l ->
  (k * List.length l <= list_sum (map f l))%nat.
Proof.
  induction 1 as [|a l Ha _ IH]; [cbn; lia|].
  change (list_sum (map f (a :: l))) with (f a + list_sum (map f l))%nat.
  cbn [List.length]. lia.
Qed.

Lemma list_sum_constant {A : Type} (k : nat) (l : list A) :
  list_sum (map (fun _ => k) l) = (k * List.length l)%nat.
Proof.
  induction l as [|a l IH]; [cbn; lia|].
  change (list_sum (map (fun _ => k) (a :: l)))
    with (k + list_sum (map (fun _ : A => k) l))%nat.
  cbn [List.length]. lia.
Qed.

Lemma length_border (diceConfigs : list Dice) :
  String.length (border diceConfigs) = (15 + 14 * List.length diceConfigs)%nat.
Proof.
  unfold border. rewrite length_append, length_join_nothing, map_map.
  rewrite (list_sum_constant (String.length "-------------+")).
  reflexivity.
Qed.

Lemma length_head_line (diceConfigs : list Dice) :
  Forall six_faces diceConfigs ->
  (16 + 15 * List.length diceConfigs
   <= String.length (head_line diceConfigs))%nat.
Proof.
  intros F. unfold head_line.
  rewrite length_append, length_join_nothing, map_map.
  apply (Nat.add_le_mono 16 16); [reflexivity|].
  apply list_sum_at_least. apply Forall_forall. intros d Hd.
  rewrite Forall_forall in F. pose proof (length_dice_text d (F d Hd)).
  rewrite length_append, length_padEnd.
  replace (String.length " |") with 2%nat by reflexivity. lia.
Qed.

Section WithNumberText.
Variable Number_toString : float -> string.

Lemma pad_cells_strings (row : list Cell) :
  Forall (fun c => exists s, c = CStr s) row ->
  exists cells,
    DiceInput.map_outcome (pad_cell Number_toString) row = Returned cells.
Proof.
  induction 1 as [|c row [s ->] _ [cells IH]]; [eexists; reflexivity|].
  cbn [DiceInput.map_outcome pad_cell bind]. rewrite IH. cbn [bind].
  eexists; reflexivity.
Qed.

Lemma row_lines_strings (diceConfigs : list Dice)
    (probabilities : list (list Cell)) :
  Forall (Forall (fun c => exists s, c = CStr s)) probabilities ->
  forall i,
    (i + List.length probabilities <= List.length diceConfigs)%nat ->
    exists lines,
      row_lines Number_toString probabilities diceConfigs i
      = (lines, Returned tt) /\
      List.length lines = (2 * List.length probabilities)%nat.
Proof.
  induction 1 as [|row rest Hrow _ IH]; intros i Hi.
  - exists []. split; reflexivity.
  - cbn [row_lines]. cbn [List.length] in Hi.
    destruct (nth_error diceConfigs i) as [d|] eqn:E.
    2:{ apply nth_error_None in E. lia. }
    destruct (pad_cells_strings row Hrow) as [cells ->].
    destruct (IH (S i) ltac:(lia)) as (lines & -> & L).
    eexists. split; [reflexivity|]. cbn [List.length]. lia.
Qed.

Lemma nth_all {A : Type} (P : A -> Prop) (l : list A) :
  (forall j a, nth_error l j = Some a -> P a) -> Forall P l.
Proof.
  intros H. apply Forall_forall. intros a Ha.
  destruct (In_nth_error l a Ha) as [j Hj]. exact (H j a Hj).
Qed.

Lemma draft_row_strings (n i : nat) (r : MathRandom) :
  let '(row, _) :=
    fold_left
      (fun '(row, r) j =>
         let '(c, r') := Draft.entry i j r in
         (array_set CUndefined j c row, r'))
      (seq 0 n) ([], r) in
  List.length row = n /\ Forall (fun c => exists s, c = CStr s) row.
Proof.
  pose proof (fold_array_set_state CUndefined (Draft.entry i)
                (fun _ c => exists s, c = CStr s)) as L.
  specialize (L ltac:(
    intros j s; unfold Draft.entry; destruct (i =? j)%nat;
    [eexists; reflexivity | cbn [Math_random fst]; eexists; reflexivity])).
  specialize (L n 0%nat [] r eq_refl
                ltac:(intros j a H; destruct j; discriminate H)).
  destruct (fold_left _ _ _) as [row r'].
  destruct L as [Hlen Hall]. split; [exact Hlen|].
  apply nth_all. exact Hall.
Qed.

Lemma draft_matrix_strings (diceSet : list Dice) (r : MathRandom) :
  List.length (fst (Draft.calculate diceSet r)) = List.length diceSet /\
  Forall (Forall (fun c => exists s, c = CStr s))
    (fst (Draft.calculate diceSet r)).
Proof.
  unfold Draft.calculate. set (n := List.length diceSet).
  pose proof (fold_array_set_state []
                (fun i r =>
                   fold_left
                     (fun '(row, r) j =>
                        let '(c, r') := Draft.entry i j r in
                        (array_set CUndefined j c row, r'))
                     (seq 0 n) ([], r))
                (fun _ row => Forall (fun c => exists s, c = CStr s) row)) as L.
  specialize (L ltac:(
    intros k s; cbv beta; pose proof (draft_row_strings n k s) as R;
    destruct (fold_left _ _ _) as [row s']; destruct R as [_ R];
    cbn [fst]; exact R)).
  specialize (L n 0%nat [] r eq_refl
                ltac:(intros j a H; destruct j; discriminate H)).
  destruct (fold_left _ _ _) as [probabilities r'].
  destruct L as [Hlen Hall]. cbn [fst]. split; [exact Hlen|].
  apply nth_all. exact Hall.
Qed.

(** X12. The table of the draft [t.js]: on the matrix its [calculate]
    makes for dice of six faces, [display] does not fail: it writes the
    title, a border, the head line and a border, then two lines for each
    die.  Every border has [15 + 14 n] characters, fewer than the head
    line: a die prints in at least 13 characters and [padEnd(11)] cuts
    nothing, so the columns are never aligned. *)
Theorem draft_table_is_misaligned (diceSet : list Dice) (r : MathRandom) :
  Forall six_faces diceSet ->
  exists rows,
    display Number_toString (fst (Draft.calculate diceSet r)) diceSet
    = ([ConsoleLog [LStr (Game.nl ++ "Probability of the win for the user:")];
        ConsoleLog [LStr (border diceSet)];
        ConsoleLog [LStr (head_line diceSet)];
        ConsoleLog [LStr (border diceSet)]] ++ rows, Returned tt)%list /\
    List.length rows = (2 * List.length diceSet)%nat /\
    String.length (border diceSet) = (15 + 14 * List.length diceSet)%nat /\
    (String.length (border diceSet) < String.length (head_line diceSet))%nat.
Proof.
  intros F. destruct (draft_matrix_strings diceSet r) as [Hlen Hall].
  destruct (row_lines_strings diceSet _ Hall 0%nat) as (rows & E & L).
  { rewrite Hlen. lia. }
  exists rows. unfold display. rewrite E. split; [reflexivity|].
  split; [rewrite L, Hlen; reflexivity|].
  split; [apply length_border|].
  rewrite length_border. pose proof (length_head_line diceSet F). lia.
Qed.

End WithNumberText.
Lemma draft_table_is_misaligned_witness :
  exists rows,
    display (fun _ => "") (fst (Draft.calculate sample_dice
                                  (mkMathRandom (fun _ => quarter) 0)))
      sample_dice
    = ([ConsoleLog [LStr (Game.nl ++ "Probability of the win for the user:")];
        ConsoleLog [LStr (border sample_dice)];
        ConsoleLog [LStr (head_line sample_dice)];
        ConsoleLog [LStr (border sample_dice)]] ++ rows, Returned tt)%list /\
    List.length rows = (2 * List.length sample_dice)%nat /\
    String.length (border sample_dice)
    = (15 + 14 * List.length sample_dice)%nat /\
    (String.length (border sample_dice)
     < String.length (head_line sample_dice))%nat.
Proof.
  apply (draft_table_is_misaligned (fun _ => "") sample_dice).
  repeat constructor.
Defined.

End LayoutFacts.

Module PlayFacts.
Import Js JsText JsNumber Crypto Dice FairRandomGenerator Game.
Import Reference CommandLine.
Import DigitFacts TextFacts CommitReveal FairThrow Play.

(** *** [splice] *)

Lemma firstn_one_skipn {A : Type} (p : nat) (l : list A) :
  firstn 1 (skipn p l)
  = match nth_error l p with Some a => [a] | None => [] end.
Proof.
  revert l. induction p as [|p IH]; intros [|a l]; try reflexivity.
  cbn [skipn nth_error]. apply IH.
Qed.

(** Removing one element at a position that is no negative number. *)
Lemma splice_one_at {A : Type} (p : nat) (l : list A) :
  splice_one (Finite (Z.of_nat p)) l
  = (match nth_error l p with Some a => [a] | None => [] end,
     (firstn p l ++ skipn (S p) l)%list).
Proof.
  unfold splice_one.
  replace (Z.of_nat p <? 0) with false by (symmetry; apply Z.ltb_ge; lia).
  replace (Z.max 1 0) with 1 by reflexivity.
  destruct (Nat.lt_ge_cases p (List.length l)) as [H | H].
  - replace (Z.min (Z.of_nat p) (Z.of_nat (List.length l)))
      with (Z.of_nat p) by lia.
    replace (Z.min 1 (Z.of_nat (List.length l) - Z.of_nat p)) with 1 by lia.
    rewrite Nat2Z.id. replace (Z.to_nat 1) with 1%nat by reflexivity.
    rewrite firstn_one_skipn. replace (p + 1)%nat with (S p) by lia.
    reflexivity.
  - replace (Z.min (Z.of_nat p) (Z.of_nat (List.length l)))
      with (Z.of_nat (List.length l)) by lia.
    replace (Z.min 1 (Z.of_nat (List.length l) - Z.of_nat (List.length l)))
      with 0 by lia.
    rewrite Nat2Z.id. replace (Z.to_nat 0) with 0%nat by reflexivity.
    rewrite Nat.add_0_r, firstn_all, skipn_all, firstn_O.
    rewrite (firstn_all2 l) by lia. rewrite (skipn_all2 l) by lia.
    replace (nth_error l p) with (@None A)
      by (symmetry; apply nth_error_None; exact H).
    reflexivity.
Qed.

(** A negative position counts from the end, and stops at the start. *)
Lemma splice_one_from_the_end {A : Type} (k : Z) (l : list A) :
  k < 0 ->
  splice_one (Finite k) l
  = splice_one (Finite (Z.max (Z.of_nat (List.length l) + k) 0)) l.
Proof.
  intros H. unfold splice_one.
  replace (k <? 0) with true by (symmetry; apply Z.ltb_lt; lia).
  replace (Z.max (Z.of_nat (List.length l) + k) 0 <? 0) with false
    by (symmetry; apply Z.ltb_ge; lia).
  replace (Z.min (Z.max (Z.of_nat (List.length l) + k) 0)
             (Z.of_nat (List.length l)))
    with (Z.max (Z.of_nat (List.length l) + k) 0) by lia.
  reflexivity.
Qed.

(** The position [splice] starts at, for an integer [k]. *)
Lemma splice_one_position {A : Type} (k : Z) (l : list A) :
  let p := Z.to_nat (if k <? 0 then Z.max (Z.of_nat (List.length l) + k) 0
                     else k) in
  splice_one (Finite k) l
  = (match nth_error l p with Some a => [a] | None => [] end,
     (firstn p l ++ skipn (S p) l)%list).
Proof.
  intros p. subst p. destruct (Z.ltb_spec k 0) as [H | H].
  - rewrite splice_one_from_the_end by exact H.
    rewrite <- (Z2Nat.id (Z.max _ 0)) at 1 by lia. apply splice_one_at.
  - rewrite <- (Z2Nat.id k) at 1 by lia. apply splice_one_at.
Qed.

Lemma hd_error_one {A : Type} (o : option A) :
  hd_error (match o with Some a => [a] | None => [] end) = o.
Proof. destruct o; reflexivity. Qed.

(** *** [selectDice] *)

(** What is selected when the answer converts to the integer [k]. *)
Lemma selectDice_integer (diceSet : list Dice) (answer : string) (k : Z)
    (rest : list string) :
  ToIntegerOrInfinity (StringToNumber answer) = Finite k ->
  let p := Z.to_nat (if k <? 0
                     then Z.max (Z.of_nat (List.length diceSet) + k) 0
                     else k) in
  let left := (firstn p diceSet ++ skipn (S p) diceSet)%list in
  snd (selectDice diceSet (answer :: rest))
  = Returns (mkSelection (nth_error diceSet p) (hd_error left) (tl left), rest).
Proof.
  intros E p left. unfold selectDice. rewrite E.
  rewrite splice_one_position. fold p. fold left.
  rewrite (splice_one_at 0 left : splice_one (Finite 0) left = _).
  cbn [snd firstn skipn app]. rewrite !hd_error_one.
  destruct left; reflexivity.
Qed.


Lemma hd_error_removed {A : Type} (p : nat) (l : list A) :
  hd_error (firstn p l ++ skipn (S p) l)
  = nth_error l (if (p =? 0)%nat then 1 else 0)%nat.
Proof. destruct p as [|p]; destruct l as [|a [|b l]]; reflexivity. Qed.

Lemma length_removed {A : Type} (p : nat) (l : list A) :
  (p < List.length l)%nat ->
  List.length (tl (firstn p l ++ skipn (S p) l)) = (List.length l - 2)%nat.
Proof.
  intros H.
  assert (L : List.length (firstn p l ++ skipn (S p) l)
              = (List.length l - 1)%nat).
  { rewrite length_app, length_firstn, length_skipn. lia. }
  destruct (firstn p l ++ skipn (S p) l)%list; cbn [tl List.length] in *; lia.
Qed.

(** X13. [selectDice] on an index: with [n] dice and an integer [k],
    [-n <= k < n], typed as its decimal digits, the user gets the die at
    position [k] (counted from the end when [k] is negative, as [splice]
    does), the computer gets the first die left (die 1 when the user took
    die 0, else die 0), and [n - 2] dice remain. *)
Theorem selectDice_picks (diceSet : list Dice) (k : Z) (rest : list string) :
  let n := Z.of_nat (List.length diceSet) in
  - n <= k < n -> n <= MAX_SAFE_INTEGER ->
  let p := Z.to_nat (if k <? 0 then n + k else k) in
  let left := tl (firstn p diceSet ++ skipn (S p) diceSet) in
  snd (selectDice diceSet (Js.toString (JInt k) :: rest))
  = Returns (mkSelection (nth_error diceSet p)
               (nth_error diceSet (if (p =? 0)%nat then 1 else 0)%nat)
               left, rest) /\
  (p < List.length diceSet)%nat /\
  List.length left = (List.length diceSet - 2)%nat.
Proof.
  intros n Hk Hn p left.
  assert (P : (p < List.length diceSet)%nat).
  { subst p. destruct (k <? 0) eqn:E; [apply Z.ltb_lt in E | apply Z.ltb_ge in E];
      lia. }
  split; [|split; [exact P | apply length_removed; exact P]].
  rewrite (selectDice_integer diceSet _ k rest)
    by (rewrite StringToNumber_safe by lia; reflexivity).
  fold n. replace (Z.max (n + k) 0) with (n + k) by lia. fold p.
  rewrite hd_error_removed. reflexivity.
Qed.

(** X14. An answer that is no number selects die 0: [splice] converts
    its start to an integer and NaN becomes 0, so the user gets the first
    die and the computer the second, with no error. *)
Theorem selectDice_not_a_number (diceSet : list Dice) (answer : string)
    (rest : list string) :
  StringToNumber answer = Whole JNaN ->
  snd (selectDice diceSet (answer :: rest))
  = Returns (mkSelection (nth_error diceSet 0) (nth_error diceSet 1)
               (skipn 2 diceSet), rest).
Proof.
  intros E.
  rewrite (selectDice_integer diceSet answer 0 rest) by (rewrite E; reflexivity).
  destruct diceSet as [|a [|b l]]; reflexivity.
Qed.

Section WithEnvironment.
Variable mac : string -> string -> string.
Variable tbl : list string -> list (list string) -> string.
Variable argv : list Dice.

(** *** [determineFirstMove] *)

Lemma strict_equal_spec (x : JsNum) (z : Z) :
  strict_equal x (JInt z) = true <-> x = JInt z.
Proof.
  destruct x as [a | s |]; cbn [strict_equal]; split; intros H;
    try discriminate H.
  - apply Z.eqb_eq in H. now subst.
  - injection H as ->. apply Z.eqb_refl.
Qed.

Lemma determineFirstMove_answered (answer : string) (rest : list string)
    (g : Entropy) :
  let key := hex (read_bytes g 32) in
  let bit := tape g (cursor g + 32) mod 2 in
  let guessed := strict_equal (parseInt answer) (JInt bit) in
  determineFirstMove mac (answer :: rest) g
  = ([ConsoleLog [LStr (nl ++ "Determining who makes the first move...")];
      ConsoleLog
        [LStr ("I selected a random value in the range 0..1 (KEY="
               ++ mac key (Js.toString (JInt bit)) ++ ").")];
      Question "Try to guess my selection (0 or 1): ";
      ConsoleLog
        [LStr ("My selection: " ++ Js.toString (JInt bit)
               ++ " (KEY=" ++ key ++ ").")];
      ConsoleLog
        [LStr (if guessed then "You guessed it! You make the first move."
               else "I make the first move.")]],
     Returns (if guessed then "user" else "computer",
              mkEntropy (tape g) (cursor g + 33), rest)).
Proof.
  intros key bit guessed. unfold determineFirstMove.
  rewrite generateRandom_succeeds by (unfold RAND_MAX; lia).
  fold key. fold bit. fold guessed. destruct guessed; reflexivity.
Qed.

(** The commitment [generateRandom] returns for a range that [randomInt]
    accepts: its value lies in the range and its digest is the MAC of the
    text of the value under its key. *)
Lemma generateRandom_commitment (range : Z) (g : Entropy) :
  1 <= range <= RAND_MAX ->
  exists (c : Commitment) (g1 : Entropy),
    generateRandom mac range g = Returned (c, g1) /\
    0 <= randomValue c < range /\
    hmac c = mac (key c) (Js.toString (JInt (randomValue c))).
Proof.
  intros H. eexists. eexists.
  split; [rewrite generateRandom_succeeds by exact H; reflexivity|].
  cbn [randomValue hmac key].
  split; [apply Z.mod_pos_bound; lia | reflexivity].
Qed.

(** [determineFirstMove] once the commitment is made and the guess is
    typed. *)
Lemma determineFirstMove_committed (answer : string) (rest : list string)
    (g g1 : Entropy) (c : Commitment) :
  generateRandom mac 2 g = Returned (c, g1) ->
  let guessed := strict_equal (parseInt answer) (JInt (randomValue c)) in
  determineFirstMove mac (answer :: rest) g
  = ([ConsoleLog [LStr (nl ++ "Determining who makes the first move...")];
      ConsoleLog
        [LStr ("I selected a random value in the range 0..1 (KEY="
               ++ hmac c ++ ").")];
      Question "Try to guess my selection (0 or 1): ";
      ConsoleLog
        [LStr ("My selection: " ++ Js.toString (JInt (randomValue c))
               ++ " (KEY=" ++ key c ++ ").")];
      ConsoleLog
        [LStr (if guessed then "You guessed it! You make the first move."
               else "I make the first move.")]],
     Returns (if guessed then "user" else "computer", g1, rest)).
Proof.
  intros H guessed. unfold determineFirstMove. rewrite H.
  destruct c as [v h k]. cbn [randomValue hmac key] in *.
  fold guessed. destruct guessed; reflexivity.
Qed.

(** X15. [determineFirstMove] on any answer: [generateRandom(2)] returns a
    commitment (2 is a range [randomInt] accepts), so the method does not
    fail; before it asks it publishes the digest of the commitment,
    afterwards it reveals its value, a bit in [[0, 1]], and its key, and
    [verifyHMAC] accepts the three; the first move goes to the user
    exactly when [parseInt] of the answer is the bit, and to the computer
    otherwise. *)
Theorem determineFirstMove_outcome (answer : string) (rest : list string)
    (g : Entropy) :
  exists (c : Commitment) (g1 : Entropy) (shown : list Event)
         (first : string),
    generateRandom mac 2 g = Returned (c, g1) /\
    determineFirstMove mac (answer :: rest) g
    = (ConsoleLog [LStr (nl ++ "Determining who makes the first move...")]
       :: ConsoleLog
            [LStr ("I selected a random value in the range 0..1 (KEY="
                   ++ hmac c ++ ").")]
       :: Question "Try to guess my selection (0 or 1): "
       :: ConsoleLog
            [LStr ("My selection: " ++ Js.toString (JInt (randomValue c))
                   ++ " (KEY=" ++ key c ++ ").")]
       :: shown,
       Returns (first, g1, rest)) /\
    0 <= randomValue c <= 1 /\
    verifyHMAC mac (randomValue c) (key c) (hmac c) = Returned true /\
    (first = "user" <-> parseInt answer = JInt (randomValue c)) /\
    (first = "computer" <-> parseInt answer <> JInt (randomValue c)).
Proof.
  destruct (generateRandom_commitment 2 g) as (c & g1 & G & B & M);
    [unfold RAND_MAX; lia|].
  exists c, g1.
  rewrite (determineFirstMove_committed answer rest g g1 c G). cbv zeta.
  pose proof (strict_equal_spec (parseInt answer) (randomValue c)) as S.
  eexists. eexists. split; [exact G|]. split; [reflexivity|].
  split; [lia|].
  split; [unfold verifyHMAC; rewrite <- M, String.eqb_refl; reflexivity|].
  destruct (strict_equal (parseInt answer) (JInt (randomValue c))).
  - split; split; intros H; try reflexivity.
    + now apply S.
    + discriminate H.
    + exfalso. apply H. now apply S.
  - split; split; intros H; try reflexivity.
    + discriminate H.
    + apply S in H. discriminate H.
    + intros X. apply S in X. discriminate X.
Qed.

(** *** [fairThrow] and [performThrow] *)

(** A round answered with a number of the range, in closed form. *)
Lemma fairThrow_number (range c : Z) (player : string) (rest : list string)
    (g : Entropy) :
  1 <= range <= RAND_MAX -> 0 <= c < range ->
  let key := hex (read_bytes g 32) in
  let v := tape g (cursor g + 32) mod range in
  fairThrow mac tbl argv (Js.toString (JInt c) :: rest) range player g
  = (transcript range
       (mkCommitment v (mac key (Js.toString (JInt v))) key) player
       (JInt ((v + c) mod range)),
     Returns (JInt ((v + c) mod range),
              mkEntropy (tape g) (cursor g + 33), rest)).
Proof.
  intros Hr Hc key v.
  pose proof (generateRandom_succeeds mac range g Hr) as G. cbv zeta in G.
  fold key in G. fold v in G.
  rewrite (fairThrow_answered mac tbl argv _ rest range player g _ _)
    by first [exact G
             | apply toString_not_command;
               [unfold MAX_SAFE_INTEGER, RAND_MAX in *; lia | reflexivity]].
  cbn [randomValue].
  rewrite <- (append_empty (Js.toString (JInt c))).
  rewrite combine_in_range
    by first [exact Hr | exact Hc | exact I | apply Z.mod_pos_bound; lia].
  reflexivity.
Qed.

(** Without a die for the user, the throws never come to an end. *)
Lemma performThrow_undefined (stdin : list string) (computer : option Dice)
    (g : Entropy) (x : unit * Entropy * list string) :
  snd (performThrow mac tbl argv stdin None computer g) <> Returns x.
Proof.
  unfold performThrow.
  destruct (fairThrow mac tbl argv stdin 6 "computer" g)
    as [out1 [[[r1 g1] s1] | e | c |]]; cbn [snd]; try discriminate.
  destruct (fairThrow mac tbl argv s1 6 "user" g1)
    as [out2 [[[r2 g2] s2] | e | c |]]; cbn [snd]; try discriminate.
  destruct computer; cbn [snd]; discriminate.
Qed.

Lemma roll_six (d : Dice) (i : Z) :
  six_faces d -> 0 <= i < 6 ->
  exists x,
    roll d (JInt i) = Some x /\ nth_error (faces d) (Z.to_nat i) = Some x.
Proof.
  unfold six_faces, roll. intros L Hi.
  replace (i <? 0) with false by (symmetry; apply Z.ltb_ge; lia).
  destruct (nth_error (faces d) (Z.to_nat i)) as [x|] eqn:E.
  - exists x. split; reflexivity.
  - apply nth_error_None in E. lia.
Qed.

(** A round answered with a number of the range, by its commitment. *)
Lemma fairThrow_committed (range a : Z) (player : string)
    (rest : list string) (g g1 : Entropy) (c : Commitment) :
  generateRandom mac range g = Returned (c, g1) -> 0 <= a < range ->
  fairThrow mac tbl argv (Js.toString (JInt a) :: rest) range player g
  = (transcript range c player (JInt ((randomValue c + a) mod range)),
     Returns (JInt ((randomValue c + a) mod range), g1, rest)).
Proof.
  intros G Ha.
  destruct (generateRandom_returned mac range g g1 c G) as [Hr Hv].
  rewrite (fairThrow_answered mac tbl argv _ rest range player g g1 c)
    by first [exact G
             | apply toString_not_command;
               [unfold MAX_SAFE_INTEGER, RAND_MAX in *; lia | reflexivity]].
  rewrite <- (append_empty (Js.toString (JInt a))).
  rewrite combine_in_range by first [exact Hr | exact Hv | exact Ha | exact I].
  reflexivity.
Qed.

(** X16. [performThrow] with two dice of six faces, all safe integers, and
    both rounds answered with a number of [[0, 6)]: it returns; the first
    answer goes to the computer's round and the second to the user's,
    each with a commitment of its own; each face shown is the face at
    [(committed value + answer) mod 6] of the die, never [undefined]; and
    the verdict is [I win!] when the computer's face is the greater,
    [You win!] when it is the smaller, a draw when they are equal. *)
Theorem performThrow_verdict (a b : Z) (rest : list string)
    (user computer : Dice) (g : Entropy) :
  0 <= a < 6 -> 0 <= b < 6 ->
  six_safe_faces user -> six_safe_faces computer ->
  exists (c1 c2 : Commitment) (g1 g2 : Entropy) (x y : Z),
    generateRandom mac 6 g = Returned (c1, g1) /\
    generateRandom mac 6 g1 = Returned (c2, g2) /\
    let i := (randomValue c1 + a) mod 6 in
    let j := (randomValue c2 + b) mod 6 in
    nth_error (faces computer) (Z.to_nat i) = Some x /\
    nth_error (faces user) (Z.to_nat j) = Some y /\
    performThrow mac tbl argv
      (Js.toString (JInt a) :: Js.toString (JInt b) :: rest)
      (Some user) (Some computer) g
    = ((ConsoleLog [LStr (nl ++ "It's time for the throws!")]
        :: transcript 6 c1 "computer" (JInt i)
        ++ transcript 6 c2 "user" (JInt j))
       ++ [ConsoleLog
             [LStr (nl ++ "My throw is " ++ integer_digits x ++ ".")];
           ConsoleLog
             [LStr ("Your throw is " ++ integer_digits y ++ ".")];
           ConsoleLog
             [LStr (if y <? x then "I win!"
                    else if x <? y then "You win!" else "It's a draw!")]],
       Returns (tt, g2, rest))%list.
Proof.
  intros Ha Hb [Lu Su] [Lc Sc].
  assert (R : 1 <= 6 <= RAND_MAX) by (unfold RAND_MAX; lia).
  destruct (generateRandom_commitment 6 g R) as (c1 & g1 & G1 & _ & _).
  destruct (generateRandom_commitment 6 g1 R) as (c2 & g2 & G2 & _ & _).
  destruct (roll_six computer ((randomValue c1 + a) mod 6) Lc)
    as (x & Rx & Nx); [apply Z.mod_pos_bound; lia|].
  destruct (roll_six user ((randomValue c2 + b) mod 6) Lu)
    as (y & Ry & Ny); [apply Z.mod_pos_bound; lia|].
  exists c1, c2, g1, g2, x, y.
  split; [exact G1|]. split; [exact G2|]. cbv zeta.
  split; [exact Nx|]. split; [exact Ny|].
  assert (Sx : Z.abs x <= MAX_SAFE_INTEGER).
  { rewrite Forall_forall in Sc. apply Sc. eapply nth_error_In. exact Nx. }
  assert (Sy : Z.abs y <= MAX_SAFE_INTEGER).
  { rewrite Forall_forall in Su. apply Su. eapply nth_error_In. exact Ny. }
  unfold performThrow.
  rewrite (fairThrow_committed 6 a "computer" _ g g1 c1 G1 Ha).
  rewrite (fairThrow_committed 6 b "user" rest g1 g2 c2 G2 Hb).
  rewrite Rx, Ry. cbn [show_face face_gt].
  rewrite !toString_safe by assumption.
  rewrite app_assoc. reflexivity.
Qed.

(** *** [start] *)

(** X17. An index beyond the dice: with [n] dice and [n <= k], [splice]
    removes nothing, the user's die is [undefined], the computer takes
    die 0 and the others stay.  The game then never completes: whatever
    is typed next, [start] does not return, and once both rounds are
    answered with numbers of [[0, 6)] it ends with the TypeError of
    [userDice.roll] on [undefined]. *)
Theorem selection_beyond_the_dice (diceSet : list Dice) (k : Z)
    (guess : string) (rest : list string) (g : Entropy) :
  Z.of_nat (List.length diceSet) <= k <= MAX_SAFE_INTEGER ->
  snd (selectDice diceSet (Js.toString (JInt k) :: rest))
  = Returns (mkSelection None (hd_error diceSet) (tl diceSet), rest) /\
  (forall x,
      snd (start mac tbl argv diceSet
             (guess :: Js.toString (JInt k) :: rest) g) <> Returns x) /\
  (forall a b later,
      0 <= a < 6 -> 0 <= b < 6 ->
      rest = Js.toString (JInt a) :: Js.toString (JInt b) :: later ->
      snd (start mac tbl argv diceSet
             (guess :: Js.toString (JInt k) :: rest) g) = Throws TypeError).
Proof.
  intros Hk.
  assert (S : snd (selectDice diceSet (Js.toString (JInt k) :: rest))
              = Returns (mkSelection None (hd_error diceSet) (tl diceSet),
                         rest)).
  { rewrite (selectDice_integer diceSet _ k rest)
      by (rewrite StringToNumber_safe by lia; reflexivity).
    replace (k <? 0) with false by (symmetry; apply Z.ltb_ge; lia).
    rewrite (firstn_all2 diceSet) by lia.
    rewrite (skipn_all2 diceSet) by lia.
    replace (nth_error diceSet (Z.to_nat k)) with (@None Dice)
      by (symmetry; apply nth_error_None; lia).
    rewrite app_nil_r. reflexivity. }
  split; [exact S|].
  assert (W : forall x, snd (start mac tbl argv diceSet
                               (guess :: Js.toString (JInt k) :: rest) g)
                        = x ->
              exists out g1,
                x = match performThrow mac tbl argv rest None
                            (hd_error diceSet) g1 with
                    | (_, Returns (_, g2, stdin3)) =>
                        Returns (mkPlayed out
                                   (mkSelection None (hd_error diceSet)
                                      (tl diceSet)), g2, stdin3)
                    | (_, Throws e) => Throws e
                    | (_, Exits c) => Exits c
                    | (_, Awaits) => Awaits
                    end).
  { intros x <-. unfold start. rewrite determineFirstMove_answered. cbv zeta.
    destruct (selectDice diceSet (Js.toString (JInt k) :: rest))
      as [out2 e2]. cbn [snd] in S. subst e2.
    cbn [userDice computerDice].
    exists (if strict_equal (parseInt guess)
                 (JInt (tape g (cursor g + 32) mod 2))
            then "user" else "computer"),
      (mkEntropy (tape g) (cursor g + 33)).
    destruct (performThrow mac tbl argv rest None (hd_error diceSet) _)
      as [out3 [[[u g2] s3] | e | c |]]; reflexivity. }
  split.
  - intros x H. destruct (W _ H) as (out & g1 & E).
    pose proof (performThrow_undefined rest (hd_error diceSet) g1) as U.
    destruct (performThrow mac tbl argv rest None (hd_error diceSet) g1)
      as [out3 [[[u g2] s3] | e | c |]]; try discriminate E.
    exact (U _ eq_refl).
  - intros a b later Ha Hb ->.
    destruct (W _ eq_refl) as (out & g1 & E). rewrite E.
    assert (R : 1 <= 6 <= RAND_MAX) by (unfold RAND_MAX; lia).
    unfold performThrow.
    rewrite (fairThrow_number 6 a "computer" _ g1 R Ha). cbv zeta.
    rewrite (fairThrow_number 6 b "user" later _ R Hb). cbv zeta.
    destruct (hd_error diceSet); reflexivity.
Qed.

(** X18. The first move is decided and never used: for any two answers
    to the guess the game goes the same way (the same dice selected, the
    same entropy read, the same input left, the same ending), and what
    is written differs at most in its sixth line, which tells who moves
    first. *)
Theorem first_move_is_never_used (diceSet : list Dice) (a b : string)
    (rest : list string) (g : Entropy) :
  let played answer := start mac tbl argv diceSet (answer :: rest) g in
  firstn 5 (fst (played a)) = firstn 5 (fst (played b)) /\
  skipn 6 (fst (played a)) = skipn 6 (fst (played b)) /\
  match snd (played a), snd (played b) with
  | Returns (p, g1, s1), Returns (q, g2, s2) =>
      selection p = selection q /\ g1 = g2 /\ s1 = s2
  | Throws e1, Throws e2 => e1 = e2
  | Exits c1, Exits c2 => c1 = c2
  | Awaits, Awaits => True
  | _, _ => False
  end.
Proof.
  intros played. subst played. cbv beta. unfold start.
  rewrite !determineFirstMove_answered. cbv zeta.
  destruct (selectDice diceSet rest) as [out2 [[chosen s2] | e | c |]];
    try (cbn [fst snd firstn skipn app]; repeat split; reflexivity).
  destruct (performThrow mac tbl argv s2 (userDice chosen)
              (computerDice chosen) _)
    as [out3 [[[u g2] s3] | e | c |]];
    cbn [fst snd firstn skipn app selection]; repeat split; reflexivity.
Qed.

(** *** The main block *)

Lemma showResults_table (diceSet : list Dice) :
  exists table,
    showResults tbl diceSet
    = ([ConsoleLog [LStr (nl ++ "Probability of the win for the user:")];
        ConsoleLog [LStr table]], Returned tt).
Proof.
  pose proof (showResults_returns tbl diceSet) as H.
  unfold showResults, display in *.
  destruct (table_rows _ diceSet 0) as [rows | e]; cbn [snd] in H.
  - eexists. reflexivity.
  - discriminate H.
Qed.

(** X19. The main block by the command line: with fewer than three
    arguments, or with an argument that is not six integers, it writes
    the message of the exception and the usage example with
    [console.error], nothing else, and exits with code 1; otherwise it
    writes the table, which never fails, and starts the game on the dice
    parsed, so that the output begins with the title, the table and the
    welcome line. *)
Theorem main_outcome (args stdin : list string) (g : Entropy) :
  let failed (message : string) :=
    ([ErrorMessage (Error message); ConsoleError [LStr usage]],
     @Exits (Played * Entropy * list string) 1) in
  let diceSet := map dice_of args in
  main mac tbl args stdin g
  = (if (List.length args <? 3)%nat then failed too_few
     else if forallb acceptable args
          then (map Wrote (fst (showResults tbl diceSet)
                           ++ fst (start mac tbl diceSet diceSet stdin g)),
                snd (start mac tbl diceSet diceSet stdin g))
          else failed not_six) /\
  exists table later,
    (fst (showResults tbl diceSet)
     ++ fst (start mac tbl diceSet diceSet stdin g))%list
    = ConsoleLog [LStr (nl ++ "Probability of the win for the user:")]
      :: ConsoleLog [LStr table]
      :: ConsoleLog [LStr "Welcome to the Dice Game!"] :: later.
Proof.
  intros failed diceSet. destruct (showResults_table diceSet) as [table T].
  split.
  - unfold main. rewrite InputFacts.parseDiceConfigs_outcome.
    destruct (List.length args <? 3)%nat; [reflexivity|].
    destruct (forallb acceptable args); [|reflexivity].
    fold diceSet. rewrite T. cbn [fst].
    destruct (start mac tbl diceSet diceSet stdin g) as [out ending].
    reflexivity.
  - rewrite T. cbn [fst app]. exists table.
    unfold start.
    destruct (determineFirstMove mac stdin g)
      as [out1 [[[first g1] s1] | e | c |]];
      try (eexists; reflexivity).
    destruct (selectDice diceSet s1) as [out2 [[chosen s2] | e | c |]];
      try (eexists; reflexivity).
    destruct (performThrow mac tbl diceSet s2 _ _ g1)
      as [out3 [[[u g2] s3] | e | c |]]; eexists; reflexivity.
Qed.

End WithEnvironment.

(** *** Instances *)

Lemma selectDice_picks_witness :
  snd (selectDice sample_dice [Js.toString (JInt (-1))])
  = Returns (mkSelection (Some dieC) (Some dieA) [dieB], []).
Proof.
  destruct (selectDice_picks sample_dice (-1) []) as (E & _ & _).
  - simpl. lia.
  - unfold MAX_SAFE_INTEGER. simpl. lia.
  - rewrite E. reflexivity.
Defined.

Lemma selectDice_not_a_number_witness :
  snd (selectDice sample_dice ["?"])
  = Returns (mkSelection (Some dieA) (Some dieB) [dieC], []).
Proof.
  rewrite (selectDice_not_a_number sample_dice "?" []);
    vm_compute; reflexivity.
Defined.

Lemma performThrow_verdict_witness :
  performThrow sample_mac sample_table sample_dice
    [Js.toString (JInt 2); Js.toString (JInt 3)] (Some dieA) (Some dieB)
    sample_entropy
  = ((ConsoleLog [LStr (nl ++ "It's time for the throws!")]
      :: transcript 6 sample_commitment "computer" (JInt 3)
      ++ transcript 6 second_commitment "user" (JInt 1))
     ++ [ConsoleLog [LStr (nl ++ "My throw is 1.")];
         ConsoleLog [LStr "Your throw is 2."];
         ConsoleLog [LStr "You win!"]],
     Returns (tt, mkEntropy (tape sample_entropy) 66, []))%list.
Proof.
  destruct (performThrow_verdict sample_mac sample_table sample_dice 2 3 []
              dieA dieB sample_entropy)
    as (c1 & c2 & g1 & g2 & x & y & G1 & G2 & Hx & Hy & E);
    try lia;
    try (split; [reflexivity|];
         repeat constructor; unfold MAX_SAFE_INTEGER; simpl; lia).
  rewrite E.
  assert (E1 : (c1, g1) = (sample_commitment, sample_entropy_after)).
  { assert (I : forall p q : Commitment * Entropy,
               Returned p = Returned q -> p = q)
      by (intros p q X; injection X as ->; reflexivity).
    apply I. rewrite <- G1. vm_compute. reflexivity. }
  injection E1 as -> ->.
  assert (E2 : (c2, g2)
               = (second_commitment, mkEntropy (tape sample_entropy) 66)).
  { assert (I : forall p q : Commitment * Entropy,
               Returned p = Returned q -> p = q)
      by (intros p q X; injection X as ->; reflexivity).
    apply I. rewrite <- G2. vm_compute. reflexivity. }
  injection E2 as -> ->.
  vm_compute in Hx. vm_compute in Hy.
  injection Hx as <-. injection Hy as <-. reflexivity.
Defined.

Lemma selection_beyond_the_dice_witness :
  snd (start sample_mac sample_table sample_dice sample_dice
         ["0"; Js.toString (JInt 3); Js.toString (JInt 2);
          Js.toString (JInt 3)] sample_entropy)
  = Throws TypeError.
Proof.
  destruct (selection_beyond_the_dice sample_mac sample_table sample_dice
              sample_dice 3 "0"
              [Js.toString (JInt 2); Js.toString (JInt 3)] sample_entropy)
    as (_ & _ & T).
  - unfold MAX_SAFE_INTEGER. simpl. lia.
  - apply (T 2 3 []); [lia | lia | reflexivity].
Defined.

End PlayFacts.
